(** * MCBE-Storage-Database: a chunked key-value store over dynamic properties

    A shallow embedding of the three store implementations of the repository
    ([Database] of part_000, the first [Database] of part_001, and
    [JSONStorage] of DATABASE.js) together with the properties of the
    specification that were checked against them.

    Conventions.
    - A JavaScript string is a sequence of UTF-16 code units: [jsstring] is
      [list N].  [lit] turns an ASCII literal into such a sequence.
    - A JavaScript number is carried as an integer ([Z]): the store copies
      numbers around and compares one with a loop counter, nothing else.
    - The host object ([world] or an entity) is a finite map of dynamic
      properties together with the log of the writes it received.
    - [JSON.parse] and [JSON.stringify] are host built-ins; the embedding
      takes them as a type class [JSON]. *)

From Stdlib Require Import ZArith NArith Lia Ascii String DecimalString DecimalNat.
From stdpp Require Import gmap list.

Set Default Proof Using "Type".
Set Warnings "-register-all,-abstract-large-number".
Local Open Scope N_scope.

(** ** Strings *)

Abbreviation jsstring := (list N).

Definition lit (s : String.string) : jsstring :=
  List.map N_of_ascii (list_ascii_of_string s).

(** [`${index}`] for a non-negative integer. *)
Definition decimal (n : nat) : jsstring :=
  lit (NilEmpty.string_of_uint (Nat.to_uint n)).

(** WhiteSpace and LineTerminator code units, the ones [String.prototype.trim]
    strips. *)
Definition is_line_terminator (c : N) : bool :=
  (c =? 10) || (c =? 13) || (c =? 8232) || (c =? 8233).

Definition is_white_space (c : N) : bool :=
  (c =? 9) || (c =? 11) || (c =? 12) || (c =? 32) || (c =? 160)
  || (c =? 5760) || ((8192 <=? c) && (c <=? 8202)) || (c =? 8239)
  || (c =? 8287) || (c =? 12288) || (c =? 65279) || is_line_terminator c.

Fixpoint trim_start (s : jsstring) : jsstring :=
  match s with
  | c :: s' => if is_white_space c then trim_start s' else s
  | [] => []
  end.

Definition trim (s : jsstring) : jsstring :=
  rev (trim_start (rev (trim_start s))).

(** [!key.trim()]: the trimmed string is empty. *)
Definition blank (s : jsstring) : bool :=
  match trim s with [] => true | _ => false end.

Fixpoint strip_prefix (p s : jsstring) : option jsstring :=
  match p, s with
  | [], _ => Some s
  | a :: p', b :: s' => if a =? b then strip_prefix p' s' else None
  | _ :: _, [] => None
  end.

Definition startsWith (s p : jsstring) : bool :=
  match strip_prefix p s with Some _ => true | None => false end.

(** [s.substring(a, b)] for non-negative integers. *)
Definition substring (a b : nat) (s : jsstring) : jsstring :=
  let a' := Nat.min a (length s) in
  let b' := Nat.min b (length s) in
  take (Nat.max a' b' - Nat.min a' b') (drop (Nat.min a' b') s).

(** [s.substr(start, len)] for non-negative integers. *)
Definition substr (start len : nat) (s : jsstring) : jsstring :=
  take len (drop start s).

(** [s.slice(a, b)] for non-negative integers. *)
Definition slice (a b : nat) (s : jsstring) : jsstring :=
  take (b - a) (drop a s).

(** ** Values *)

Inductive value : Type :=
  | VUndefined
  | VNull
  | VBool (b : bool)
  | VNumber (n : Z)
  | VString (s : jsstring)
  | VObject (props : list (jsstring * value))
  | VArray (elems : list value).

Inductive jstype := TUndefined | TObject | TBoolean | TNumber | TString.

Definition typeof (v : value) : jstype :=
  match v with
  | VUndefined => TUndefined
  | VNull | VObject _ | VArray _ => TObject
  | VBool _ => TBoolean
  | VNumber _ => TNumber
  | VString _ => TString
  end.

Definition is_undefined (v : value) : bool :=
  match v with VUndefined => true | _ => false end.

Definition is_number (v : value) : bool :=
  match v with VNumber _ => true | _ => false end.

Definition is_string (v : value) : bool :=
  match v with VString _ => true | _ => false end.

Definition is_object (v : value) : bool :=
  match typeof v with TObject => true | _ => false end.

(** ToBoolean. *)
Definition truthy (v : value) : bool :=
  match v with
  | VUndefined | VNull => false
  | VBool b => b
  | VNumber n => negb (n =? 0)%Z
  | VString s => match s with [] => false | _ => true end
  | VObject _ | VArray _ => true
  end.

Definition decimalZ (n : Z) : jsstring :=
  match n with
  | Zneg p => lit "-" ++ decimal (Pos.to_nat p)
  | _ => decimal (Z.to_nat n)
  end.

(** ToString, as [stringVal += x] and template literals apply it. *)
Fixpoint ToString (v : value) : jsstring :=
  match v with
  | VUndefined => lit "undefined"
  | VNull => lit "null"
  | VBool true => lit "true"
  | VBool false => lit "false"
  | VNumber n => decimalZ n
  | VString s => s
  | VObject _ => lit "[object Object]"
  | VArray elems =>
      (fix join (l : list value) : jsstring :=
         match l with
         | [] => []
         | [e] => match e with VUndefined | VNull => [] | _ => ToString e end
         | e :: l' =>
             match e with VUndefined | VNull => [] | _ => ToString e end
             ++ lit "," ++ join l'
         end) elems
  end.

(** [value[k]] on an object literal. *)
Fixpoint get_prop (props : list (jsstring * value)) (k : jsstring) : value :=
  match props with
  | [] => VUndefined
  | (k', v) :: rest => if decide (k' = k) then v else get_prop rest k
  end.

Definition member (v : value) (k : jsstring) : value :=
  match v with
  | VObject props => get_prop props k
  | _ => VUndefined
  end.

(** [Object.keys(value).length]. *)
Definition keys_length (v : value) : nat :=
  match v with
  | VObject props => length props
  | VArray elems => length elems
  | VString s => length s
  | _ => 0
  end.

(** ** Results of a call *)

Inductive result (A : Type) : Type :=
  | Returns (a : A)
  | Throws (message : jsstring).
Arguments Returns {A} a.
Arguments Throws {A} message.

(** ** The JSON built-ins *)

Class JSON := {
  JSON_stringify : value → jsstring;
  (** [None]: a SyntaxError is thrown. *)
  JSON_parse : jsstring → option value;
  JSON_parse_defined : ∀ s, JSON_parse s ≠ Some VUndefined
}.

(** ** The host object: dynamic properties *)

Record Source := {
  properties : gmap jsstring value;
  writes : list (jsstring * value)
}.

Definition empty_source : Source := {| properties := ∅; writes := [] |}.

(** [source.setDynamicProperty(id, value)]; [undefined] removes the entry. *)
Definition setDynamicProperty (id : jsstring) (v : value) (src : Source) : Source :=
  {| properties :=
       match v with
       | VUndefined => delete id (properties src)
       | _ => <[id := v]> (properties src)
       end;
     writes := writes src ++ [(id, v)] |}.

Definition getDynamicProperty (id : jsstring) (src : Source) : value :=
  default VUndefined (properties src !! id).

Definition getDynamicPropertyIds (src : Source) : list jsstring :=
  (map_to_list (properties src)).*1.

(** ** [Map] and [Set] of the store instance *)

Definition Map_has (k : jsstring) (m : gmap jsstring value) : bool :=
  bool_decide (is_Some (m !! k)).
Definition Map_get (k : jsstring) (m : gmap jsstring value) : value :=
  default VUndefined (m !! k).
Definition Map_set (k : jsstring) (v : value) (m : gmap jsstring value) :
  gmap jsstring value := <[k := v]> m.
Definition Map_delete (k : jsstring) (m : gmap jsstring value) :
  gmap jsstring value := delete k m.

(** A [Set] keeps insertion order. *)
Definition Set_has (k : jsstring) (s : list jsstring) : bool :=
  bool_decide (k ∈ s).
Definition Set_add (k : jsstring) (s : list jsstring) : list jsstring :=
  if Set_has k s then s else s ++ [k].
Definition Set_delete (k : jsstring) (s : list jsstring) : list jsstring :=
  filter (λ k', k' ≠ k) s.

(** ** The store instance

    The fields of a [Database] object.  [_storageSource] is the identity of
    the host object the instance writes to. *)

Record Database := {
  _storageSource : nat;
  _databaseId : jsstring;
  _fullPrefixBase : jsstring;
  _dataCache : gmap jsstring value;
  _knownKeys : list jsstring;
  _autoCache : bool
}.

Definition with_dataCache (f : gmap jsstring value → gmap jsstring value)
    (this : Database) : Database :=
  {| _storageSource := _storageSource this; _databaseId := _databaseId this;
     _fullPrefixBase := _fullPrefixBase this; _dataCache := f (_dataCache this);
     _knownKeys := _knownKeys this; _autoCache := _autoCache this |}.

Definition with_knownKeys (f : list jsstring → list jsstring)
    (this : Database) : Database :=
  {| _storageSource := _storageSource this; _databaseId := _databaseId this;
     _fullPrefixBase := _fullPrefixBase this; _dataCache := _dataCache this;
     _knownKeys := f (_knownKeys this); _autoCache := _autoCache this |}.

Definition with_autoCache (b : bool) (this : Database) : Database :=
  {| _storageSource := _storageSource this; _databaseId := _databaseId this;
     _fullPrefixBase := _fullPrefixBase this; _dataCache := _dataCache this;
     _knownKeys := _knownKeys this; _autoCache := b |}.

(** The process: host objects, the objects allocated by [new Database], and
    the [DB_INSTANCES] registry (a WeakMap from host object to a Map from id
    to instance). *)
Record World := {
  sources : gmap nat Source;
  heap : list Database;
  DB_INSTANCES : gmap nat (gmap jsstring nat)
}.

Definition source_of (w : World) (source : nat) : Source :=
  default empty_source (sources w !! source).

(** ** Static fields (the same in every copy of the class) *)

Definition MAX_CHUNK_SIZE : N := 32767.
Definition INTERNAL_DB_PREFIX : jsstring := [167; 9612].
Definition KEY_TYPE_NATIVE : jsstring := lit "N_".
Definition KEY_TYPE_STRING : jsstring := lit "S_".
Definition KEY_TYPE_META_CHUNK : jsstring := lit "M_".
Definition KEY_TYPE_DATA_CHUNK : jsstring := lit "D_".

(** ** The key pattern of [_initializeFromProperties]

    [keyRegex] is
    [P(?:N_|S_|M_)(.+)|PD_(.+?)_\d+$] with [P] the instance's prefix.  The id
    is spliced into the pattern as it is, not escaped; the matcher below
    reads [P] as literal text, which is what the pattern does exactly when
    the id has no syntax character of the pattern language
    ([pattern_literal]).  With one, the pattern means something else (the id
    [a+b] matches no entry of its own store) or [new RegExp] throws (the id
    [a(b]); the properties of what the scan finds are stated for
    [pattern_literal] ids. *)

(** SyntaxCharacter of the pattern grammar. *)
Definition is_syntax_character (c : N) : bool :=
  existsb (N.eqb c) (lit "^$\.*+?()[]{}|").

(** Every character of [s] is a pattern that matches itself. *)
Definition pattern_literal (s : jsstring) : bool :=
  forallb (λ c, negb (is_syntax_character c)) s.

Definition is_digit (c : N) : bool := (48 <=? c) && (c <=? 57).

Fixpoint take_while (f : N → bool) (s : jsstring) : jsstring :=
  match s with
  | c :: s' => if f c then c :: take_while f s' else []
  | [] => []
  end.

(** [(.+)] at the end of an alternative: the longest run of characters other
    than line terminators, at least one. *)
Definition dot_plus (s : jsstring) : option jsstring :=
  match take_while (λ c, negb (is_line_terminator c)) s with
  | [] => None
  | run => Some run
  end.

(** [_\d+$]. *)
Definition index_suffix (s : jsstring) : bool :=
  match s with
  | c :: d :: ds => (c =? 95) && forallb is_digit (d :: ds)
  | _ => false
  end.

(** [(.+?)_\d+$]: the shortest non-empty run followed by an index suffix. *)
Fixpoint dot_plus_lazy (acc s : jsstring) : option jsstring :=
  match s with
  | [] => None
  | c :: s' =>
      if is_line_terminator c then None
      else if index_suffix s' then Some (acc ++ [c])
      else dot_plus_lazy (acc ++ [c]) s'
  end.

Definition first_some {A} (l : list (option A)) : option A :=
  foldr (λ o acc, match o with Some a => Some a | None => acc end) None l.

(** The pattern tried at the start of [s]; the result is
    [match[1] || match[2]]. *)
Definition keyRegex_here (P s : jsstring) : option jsstring :=
  match strip_prefix P s with
  | None => None
  | Some rest =>
      match
        first_some (List.map (λ t, strip_prefix t rest ≫= dot_plus)
                      [KEY_TYPE_NATIVE; KEY_TYPE_STRING; KEY_TYPE_META_CHUNK])
      with
      | Some key => Some key
      | None => strip_prefix KEY_TYPE_DATA_CHUNK rest ≫= dot_plus_lazy []
      end
  end.

(** [prop.match(keyRegex)]: the leftmost position where the pattern matches. *)
Fixpoint keyRegex_match (P s : jsstring) : option jsstring :=
  match keyRegex_here P s with
  | Some key => Some key
  | None => match s with [] => None | _ :: s' => keyRegex_match P s' end
  end.

(** ** part_000: [class Database]

    Keys and ids are strings here, so the [typeof key !== 'string'] half of
    each guard never fires. *)

Module Part000.
Section with_JSON.
Context `{JSON}.

Definition _buildKey (this : Database) (key type : jsstring)
    (index : option nat) : jsstring :=
  if decide (type = KEY_TYPE_DATA_CHUNK)
  then _fullPrefixBase this ++ type ++ key ++ lit "_"
       ++ match index with Some i => decimal i | None => lit "undefined" end
  else _fullPrefixBase this ++ type ++ key.

Definition _cacheValue (key : jsstring) (v : value) (this : Database) :
    value * Database :=
  (v, if _autoCache this then with_dataCache (Map_set key v) this else this).

Definition _isVector (v : value) : bool :=
  truthy v
  && forallb (λ k, is_number (member v k)) [lit "x"; lit "y"; lit "z"]
  && (keys_length v =? 3)%nat.

Definition _checkKeyExists (this : Database) (key : jsstring) (src : Source) :
    bool :=
  existsb
    (λ t, negb (is_undefined (getDynamicProperty (_buildKey this key t None) src)))
    [KEY_TYPE_NATIVE; KEY_TYPE_STRING; KEY_TYPE_META_CHUNK].

Definition _initializeFromProperties (this : Database) (src : Source) :
    Database :=
  let props :=
    List.filter (λ id, startsWith id (_fullPrefixBase this))
      (getDynamicPropertyIds src) in
  foldl
    (λ this prop,
       match keyRegex_match (_fullPrefixBase this) prop with
       | Some key => with_knownKeys (Set_add key) this
       | None => this
       end)
    this props.

(** The loop of [_splitIntoChunks]; [fuel] bounds its iterations. *)
Fixpoint split_loop (fuel i : nat) (str : jsstring) : list jsstring :=
  match fuel with
  | O => []
  | S fuel' =>
      if (i <? length str)%nat
      then substring i (i + N.to_nat MAX_CHUNK_SIZE) str
           :: split_loop fuel' (i + N.to_nat MAX_CHUNK_SIZE) str
      else []
  end.

Definition _splitIntoChunks (str : jsstring) : list jsstring :=
  split_loop (length str) 0 str.

(** [for (let i = 0; i < chunkCount; i++) source.setDynamicProperty(D_key_i)]. *)
Definition delete_chunks (this : Database) (key : jsstring) (chunkCount : Z)
    (src : Source) : Source :=
  foldl
    (λ src i,
       setDynamicProperty (_buildKey this key KEY_TYPE_DATA_CHUNK (Some i))
         VUndefined src)
    src (seq 0 (Z.to_nat chunkCount)).

Definition _deleteKeyChunks (this : Database) (key : jsstring) (src : Source) :
    Source :=
  let src :=
    foldl (λ src t, setDynamicProperty (_buildKey this key t None) VUndefined src)
      src [KEY_TYPE_NATIVE; KEY_TYPE_STRING; KEY_TYPE_META_CHUNK] in
  let chunkCount :=
    getDynamicProperty (_buildKey this key KEY_TYPE_META_CHUNK None) src in
  match chunkCount with
  | VNumber n => delete_chunks this key n src
  | _ => src
  end.

(** [chunks.forEach((chunk, i) => source.setDynamicProperty(D_key_i, chunk))],
    from index [i] on. *)
Fixpoint write_chunks (this : Database) (key : jsstring) (i : nat)
    (chunks : list jsstring) (src : Source) : Source :=
  match chunks with
  | [] => src
  | chunk :: rest =>
      write_chunks this key (S i) rest
        (setDynamicProperty (_buildKey this key KEY_TYPE_DATA_CHUNK (Some i))
           (VString chunk) src)
  end.

Definition set (key : jsstring) (v : value) (this : Database) (src : Source) :
    result (Database * Source) :=
  if blank key then Throws (lit "Key must be a non-empty string") else
  let src := _deleteKeyChunks this key src in
  let this := with_dataCache (Map_delete key) this in
  if is_undefined v then
    Returns (with_knownKeys (Set_delete key) this, src)
  else
    let processed :=
      if is_object v && negb (_isVector v) then VString (JSON_stringify v)
      else v in
    let src :=
      if is_string processed
         && (MAX_CHUNK_SIZE <? N.of_nat (length (ToString processed))) then
        let chunks := _splitIntoChunks (ToString processed) in
        let src :=
          setDynamicProperty (_buildKey this key KEY_TYPE_META_CHUNK None)
            (VNumber (Z.of_nat (length chunks))) src in
        write_chunks this key 0 chunks src
      else if _isVector v then
        setDynamicProperty (_buildKey this key KEY_TYPE_NATIVE None) v src
      else
        setDynamicProperty
          (_buildKey this key
             (if is_string processed then KEY_TYPE_STRING else KEY_TYPE_NATIVE)
             None)
          processed src in
    let this := with_knownKeys (Set_add key) this in
    let this :=
      if _autoCache this then with_dataCache (Map_set key v) this else this in
    Returns (this, src).

(** [stringVal = ''; for (i < chunkCount) stringVal += source.getDynamicProperty(D_key_i)]. *)
Definition read_chunks (this : Database) (key : jsstring) (chunkCount : Z)
    (src : Source) : jsstring :=
  foldl
    (λ stringVal i,
       stringVal
       ++ ToString
            (getDynamicProperty
               (_buildKey this key KEY_TYPE_DATA_CHUNK (Some i)) src))
    [] (seq 0 (Z.to_nat chunkCount)).

Definition get (key : jsstring) (this : Database) (src : Source) :
    result (value * Database) :=
  if blank key then Throws (lit "Key must be a non-empty string") else
  if Map_has key (_dataCache this) then
    Returns (Map_get key (_dataCache this), this)
  else if negb (Set_has key (_knownKeys this))
          && negb (_checkKeyExists this key src) then
    Returns (VUndefined, this)
  else
    let nativeVal :=
      getDynamicProperty (_buildKey this key KEY_TYPE_NATIVE None) src in
    if negb (is_undefined nativeVal) then
      Returns (_cacheValue key nativeVal this)
    else
      let stringVal :=
        getDynamicProperty (_buildKey this key KEY_TYPE_STRING None) src in
      let stringVal :=
        if is_undefined stringVal then
          match
            getDynamicProperty (_buildKey this key KEY_TYPE_META_CHUNK None) src
          with
          | VNumber chunkCount => VString (read_chunks this key chunkCount src)
          | _ => stringVal
          end
        else stringVal in
      if truthy stringVal then
        match JSON_parse (ToString stringVal) with
        | Some parsed => Returns (_cacheValue key parsed this)
        | None => Returns (_cacheValue key stringVal this)
        end
      else Returns (_cacheValue key VUndefined this).

Definition has (key : jsstring) (this : Database) (src : Source) : bool :=
  Map_has key (_dataCache this) || Set_has key (_knownKeys this)
  || _checkKeyExists this key src.

Definition delete (key : jsstring) (this : Database) (src : Source) :
    result (bool * Database * Source) :=
  if blank key then Throws (lit "Key must be a non-empty string") else
  let exists_ := has key this src in
  let src := _deleteKeyChunks this key src in
  let this := with_dataCache (Map_delete key) this in
  let this := with_knownKeys (Set_delete key) this in
  Returns (exists_, this, src).

Definition deleteValue (key : jsstring) (this : Database) (src : Source) :
    result (Database * Source) :=
  set key VUndefined this src.

Definition clear (this : Database) (src : Source) : Database * Source :=
  let src :=
    foldl (λ src id, setDynamicProperty id VUndefined src) src
      (List.filter (λ id, startsWith id (_fullPrefixBase this))
         (getDynamicPropertyIds src)) in
  (with_knownKeys (λ _, []) (with_dataCache (λ _, ∅) this), src).

Definition keys (this : Database) : list jsstring := _knownKeys this.

(** [for (const key of this.keys()) yield this.get(key)], run to the end:
    what was yielded, or the error of the [get] that threw, and the instance
    with what the [get]s before it cached. *)
Fixpoint values_from (ks : list jsstring) (this : Database) (src : Source) :
    result (list value) * Database :=
  match ks with
  | [] => (Returns [], this)
  | key :: ks' =>
      match get key this src with
      | Throws e => (Throws e, this)
      | Returns (v, this) =>
          match values_from ks' this src with
          | (Throws e, this) => (Throws e, this)
          | (Returns vs, this) => (Returns (v :: vs), this)
          end
      end
  end.

Definition values (this : Database) (src : Source) :
    result (list value) * Database :=
  values_from (keys this) this src.

Fixpoint entries_from (ks : list jsstring) (this : Database) (src : Source) :
    result (list (jsstring * value)) * Database :=
  match ks with
  | [] => (Returns [], this)
  | key :: ks' =>
      match get key this src with
      | Throws e => (Throws e, this)
      | Returns (v, this) =>
          match entries_from ks' this src with
          | (Throws e, this) => (Throws e, this)
          | (Returns es, this) => (Returns ((key, v) :: es), this)
          end
      end
  end.

Definition entries (this : Database) (src : Source) :
    result (list (jsstring * value)) * Database :=
  entries_from (keys this) this src.

Definition size (this : Database) : nat := length (_knownKeys this).

Definition load (key : jsstring) (this : Database) (src : Source) :
    result Database :=
  if negb (Map_has key (_dataCache this)) then
    match get key this src with
    | Throws e => Throws e
    | Returns (_, this) => Returns this
    end
  else Returns this.

Definition unload (key : jsstring) (this : Database) : Database :=
  with_dataCache (Map_delete key) this.

Definition enableCache (this : Database) : Database := with_autoCache true this.
Definition disableCache (this : Database) : Database := with_autoCache false this.

(** [new Database(id, source)]: the address of the instance it evaluates to. *)
Definition new_Database (id : jsstring) (source : nat) (w : World) :
    result (nat * World) :=
  if blank id then Throws (lit "Invalid database ID") else
  match DB_INSTANCES w !! source ≫= (λ m, m !! id) with
  | Some a => Returns (a, w)
  | None =>
      let this :=
        {| _storageSource := source; _databaseId := id;
           _fullPrefixBase := INTERNAL_DB_PREFIX ++ id ++ lit "_";
           _dataCache := ∅; _knownKeys := []; _autoCache := true |} in
      let this := _initializeFromProperties this (source_of w source) in
      let a := length (heap w) in
      Returns
        (a,
         {| sources := sources w;
            heap := heap w ++ [this];
            DB_INSTANCES :=
              <[source := <[id := a]> (default ∅ (DB_INSTANCES w !! source))]>
                (DB_INSTANCES w) |})
  end.

(** [Database.get(id, source)]. *)
Definition static_get (id : jsstring) (source : nat) (w : World) :
    result (nat * World) :=
  new_Database id source w.

End with_JSON.
End Part000.

(** ** part_001, first copy: [class Database]

    The private helpers [_initializeFromProperties], [_buildKey],
    [_deleteKeyChunks], [_cacheValue], [_isVector] and [_checkKeyExists] have
    the same text as in part_000 and are taken from there.  This copy has no
    [_splitIntoChunks] and no [deleteValue], and none of its methods checks
    its key. *)

Module Part001.
Section with_JSON.
Context `{JSON}.

(** [Math.ceil(a / b)] on non-negative integers, [b] positive. *)
Definition ceil_div (a b : N) : N :=
  if a mod b =? 0 then a / b else a / b + 1.

(** [for (let i = 0; i < chunkCount; i++) { chunk = processed.substr(...); ... }]. *)
Definition write_substr_chunks (this : Database) (key : jsstring)
    (chunkCount : nat) (processed : jsstring) (src : Source) : Source :=
  foldl
    (λ src i,
       let chunk :=
         substr (i * N.to_nat MAX_CHUNK_SIZE) (N.to_nat MAX_CHUNK_SIZE)
           processed in
       setDynamicProperty
         (Part000._buildKey this key KEY_TYPE_DATA_CHUNK (Some i))
         (VString chunk) src)
    src (seq 0 chunkCount).

Definition set (key : jsstring) (v : value) (this : Database) (src : Source) :
    result (Database * Source) :=
  let src := Part000._deleteKeyChunks this key src in
  let this := with_dataCache (Map_delete key) this in
  if is_undefined v then
    Returns (with_knownKeys (Set_delete key) this, src)
  else
    let processed :=
      if is_object v && negb (Part000._isVector v)
      then VString (JSON_stringify v)
      else v in
    let src :=
      if is_string processed
         && (MAX_CHUNK_SIZE <? N.of_nat (length (ToString processed))) then
        let chunkCount :=
          ceil_div (N.of_nat (length (ToString processed))) MAX_CHUNK_SIZE in
        let src :=
          setDynamicProperty
            (Part000._buildKey this key KEY_TYPE_META_CHUNK None)
            (VNumber (Z.of_N chunkCount)) src in
        write_substr_chunks this key (N.to_nat chunkCount)
          (ToString processed) src
      else if Part000._isVector v then
        setDynamicProperty (Part000._buildKey this key KEY_TYPE_NATIVE None)
          v src
      else
        setDynamicProperty
          (Part000._buildKey this key
             (if is_string processed then KEY_TYPE_STRING else KEY_TYPE_NATIVE)
             None)
          processed src in
    let this := with_knownKeys (Set_add key) this in
    let this :=
      if _autoCache this then with_dataCache (Map_set key v) this else this in
    Returns (this, src).

Definition get (key : jsstring) (this : Database) (src : Source) :
    result (value * Database) :=
  if Map_has key (_dataCache this) then
    Returns (Map_get key (_dataCache this), this)
  else if negb (Set_has key (_knownKeys this))
          && negb (Part000._checkKeyExists this key src) then
    Returns (VUndefined, this)
  else
    let nativeVal :=
      getDynamicProperty (Part000._buildKey this key KEY_TYPE_NATIVE None) src in
    if negb (is_undefined nativeVal) then
      Returns (Part000._cacheValue key nativeVal this)
    else
      let stringVal :=
        getDynamicProperty (Part000._buildKey this key KEY_TYPE_STRING None)
          src in
      let stringVal :=
        if is_undefined stringVal then
          match
            getDynamicProperty
              (Part000._buildKey this key KEY_TYPE_META_CHUNK None) src
          with
          | VNumber chunkCount =>
              VString (Part000.read_chunks this key chunkCount src)
          | _ => stringVal
          end
        else stringVal in
      if truthy stringVal then
        match JSON_parse (ToString stringVal) with
        | Some parsed => Returns (Part000._cacheValue key parsed this)
        | None => Returns (Part000._cacheValue key stringVal this)
        end
      else Returns (Part000._cacheValue key VUndefined this).

Definition has (key : jsstring) (this : Database) (src : Source) : bool :=
  Map_has key (_dataCache this) || Set_has key (_knownKeys this)
  || Part000._checkKeyExists this key src.

Definition delete (key : jsstring) (this : Database) (src : Source) :
    result (bool * Database * Source) :=
  let exists_ := has key this src in
  let src := Part000._deleteKeyChunks this key src in
  let this := with_dataCache (Map_delete key) this in
  let this := with_knownKeys (Set_delete key) this in
  Returns (exists_, this, src).

Definition clear (this : Database) (src : Source) : Database * Source :=
  let src :=
    foldl (λ src id, setDynamicProperty id VUndefined src) src
      (List.filter (λ id, startsWith id (_fullPrefixBase this))
         (getDynamicPropertyIds src)) in
  (with_knownKeys (λ _, []) (with_dataCache (λ _, ∅) this), src).

Definition keys (this : Database) : list jsstring := _knownKeys this.

Fixpoint values_from (ks : list jsstring) (this : Database) (src : Source) :
    result (list value) * Database :=
  match ks with
  | [] => (Returns [], this)
  | key :: ks' =>
      match get key this src with
      | Throws e => (Throws e, this)
      | Returns (v, this) =>
          match values_from ks' this src with
          | (Throws e, this) => (Throws e, this)
          | (Returns vs, this) => (Returns (v :: vs), this)
          end
      end
  end.

Definition values (this : Database) (src : Source) :
    result (list value) * Database :=
  values_from (keys this) this src.

Fixpoint entries_from (ks : list jsstring) (this : Database) (src : Source) :
    result (list (jsstring * value)) * Database :=
  match ks with
  | [] => (Returns [], this)
  | key :: ks' =>
      match get key this src with
      | Throws e => (Throws e, this)
      | Returns (v, this) =>
          match entries_from ks' this src with
          | (Throws e, this) => (Throws e, this)
          | (Returns es, this) => (Returns ((key, v) :: es), this)
          end
      end
  end.

Definition entries (this : Database) (src : Source) :
    result (list (jsstring * value)) * Database :=
  entries_from (keys this) this src.

Definition new_Database (id : jsstring) (source : nat) (w : World) :
    result (nat * World) :=
  match DB_INSTANCES w !! source ≫= (λ m, m !! id) with
  | Some a => Returns (a, w)
  | None =>
      let this :=
        {| _storageSource := source; _databaseId := id;
           _fullPrefixBase := INTERNAL_DB_PREFIX ++ id ++ lit "_";
           _dataCache := ∅; _knownKeys := []; _autoCache := true |} in
      let this :=
        Part000._initializeFromProperties this (source_of w source) in
      let a := length (heap w) in
      Returns
        (a,
         {| sources := sources w;
            heap := heap w ++ [this];
            DB_INSTANCES :=
              <[source := <[id := a]> (default ∅ (DB_INSTANCES w !! source))]>
                (DB_INSTANCES w) |})
  end.

End with_JSON.
End Part001.

(** ** DATABASE.js: [class JSONStorage]

    It writes to [mc.world]; [chunkSize] is a positive integer. *)

Module JSONStorage.
Section with_JSON.
Context `{JSON}.

Record t := { key : jsstring; chunkSize : positive }.

Definition getChunkKey (this : t) (index : nat) : jsstring :=
  key this ++ lit ":" ++ decimal index.

Definition getCountKey (this : t) : jsstring := key this ++ lit ".count".

Definition splitIntoChunks (this : t) (str : jsstring) : list jsstring :=
  let numChunks :=
    Part001.ceil_div (N.of_nat (length str)) (Npos (chunkSize this)) in
  List.map
    (λ i, slice (i * Pos.to_nat (chunkSize this))
            ((i + 1) * Pos.to_nat (chunkSize this)) str)
    (seq 0 (N.to_nat numChunks)).

(** The loop of [load]: the chunks read so far, or [None] at the first entry
    that is not a string. *)
Fixpoint load_chunks (this : t) (indices : list nat) (world : Source) :
    option (list jsstring) :=
  match indices with
  | [] => Some []
  | i :: rest =>
      match getDynamicProperty (getChunkKey this i) world with
      | VString chunk => cons chunk <$> load_chunks this rest world
      | _ => None
      end
  end.

(** [load()], for a count entry that is absent or a number. *)
Definition load (this : t) (world : Source) : option value :=
  match getDynamicProperty (getCountKey this) world with
  | VUndefined => Some (VString [])
  | VNumber count =>
      if (count =? 0)%Z then Some (VString [])
      else
        match load_chunks this (seq 0 (Z.to_nat count)) world with
        | None => Some (VString [])
        | Some chunks =>
            match chunks with
            | [] => Some (VString [])
            | _ =>
                match JSON_parse (concat chunks) with
                | Some parsed => Some parsed
                | None => Some (VString [])
                end
            end
        end
  | _ => None
  end.

(** [oldCount > n] in [save], where [oldCount] is [count || 0] for the count
    entry [save] has just written (a number). *)
Definition old_count_exceeds (count : value) (n : nat) : bool :=
  match (if truthy count then count else VNumber 0) with
  | VNumber oldCount => (Z.of_nat n <? oldCount)%Z
  | _ => false
  end.

(** [chunks.forEach((chunk, index) => world.setDynamicProperty(key:index, chunk))],
    from [index] on. *)
Fixpoint save_chunks (this : t) (index : nat) (chunks : list jsstring)
    (world : Source) : Source :=
  match chunks with
  | [] => world
  | chunk :: rest =>
      save_chunks this (S index) rest
        (setDynamicProperty (getChunkKey this index) (VString chunk) world)
  end.

(** [for (i = from; i < to; i++) world.setDynamicProperty(key:i, undefined)]. *)
Definition erase_chunks (this : t) (from to : nat) (world : Source) : Source :=
  foldl (λ world i, setDynamicProperty (getChunkKey this i) VUndefined world)
    world (seq from (to - from)).

(** [save(data)].  [JSON.stringify(undefined)] is [undefined], whose [length]
    cannot be read. *)
Definition save (this : t) (data : value) (world : Source) :
    result (value * Source) :=
  if is_undefined data then Throws (lit "TypeError") else
  let jsonString := JSON_stringify data in
  let chunks := splitIntoChunks this jsonString in
  let world :=
    setDynamicProperty (getCountKey this)
      (VNumber (Z.of_nat (length chunks))) world in
  let world := save_chunks this 0 chunks world in
  let oldCount := getDynamicProperty (getCountKey this) world in
  let world :=
    if old_count_exceeds oldCount (length chunks) then
      match oldCount with
      | VNumber m => erase_chunks this (length chunks) (Z.to_nat m) world
      | _ => world
      end
    else world in
  Returns (data, world).

(** [clear()], for a count entry that is absent or a number. *)
Definition clear (this : t) (world : Source) : option Source :=
  match getDynamicProperty (getCountKey this) world with
  | VUndefined => Some (setDynamicProperty (getCountKey this) VUndefined world)
  | VNumber count =>
      Some
        (setDynamicProperty (getCountKey this) VUndefined
           (erase_chunks this 0 (Z.to_nat count) world))
  | _ => None
  end.

(** [strings.join("")]: [undefined] and [null] elements count as empty. *)
Definition join_empty (strings : list value) : jsstring :=
  concat
    (List.map
       (λ e, match e with VUndefined | VNull => [] | _ => ToString e end)
       strings).

(** [access()], for an [idx] entry that is absent or a number.  [JSON.parse]
    is not guarded here. *)
Definition access (this : t) (world : Source) : option (result value) :=
  match getDynamicProperty (key this ++ lit ".idx") world with
  | VUndefined => Some (Returns (getDynamicProperty (key this) world))
  | VNumber idx =>
      let strings :=
        List.map (λ i, getDynamicProperty (getChunkKey this i) world)
          (seq 0 (Z.to_nat idx)) in
      let type := getDynamicProperty (key this ++ lit ".type") world in
      let combinedString := join_empty strings in
      Some
        (match type with
         | VString tag =>
             if decide (tag = lit "json") then
               match JSON_parse combinedString with
               | Some parsed => Returns parsed
               | None => Throws (lit "SyntaxError")
               end
             else Returns (VString combinedString)
         | _ => Returns (VString combinedString)
         end)
  | _ => None
  end.

(** The [while] loop of [clearChunkData]; [None] when [fuel] runs out. *)
Fixpoint clearChunkData_loop (fuel : nat) (this : t) (i : nat)
    (world : Source) : option Source :=
  match fuel with
  | O => None
  | S fuel' =>
      if is_undefined (getDynamicProperty (getChunkKey this i) world)
      then Some world
      else
        clearChunkData_loop fuel' this (S i)
          (setDynamicProperty (getChunkKey this i) VUndefined world)
  end.

Definition clearChunkData (fuel : nat) (this : t) (world : Source) :
    option Source :=
  clearChunkData_loop fuel this 0
    (setDynamicProperty (key this ++ lit ".type") VUndefined
       (setDynamicProperty (key this ++ lit ".idx") VUndefined world)).

End with_JSON.
End JSONStorage.

(** ** Running a process

    What can happen to a [World] once instances exist: a construction, a
    method call on an instance, or a write to a host object by other code. *)

Inductive method :=
  | MSet (key : jsstring) (v : value)
  | MGet (key : jsstring)
  | MDelete (key : jsstring)
  | MDeleteValue (key : jsstring)
  | MClear
  | MValues
  | MEntries
  | MLoad (key : jsstring)
  | MUnload (key : jsstring)
  | MEnableCache
  | MDisableCache.

Inductive event :=
  | ENew (id : jsstring) (source : nat)
  | ECall (a : nat) (m : method)
  | EHostWrite (source : nat) (id : jsstring) (v : value).

Section run.
Context `{JSON}.

(** The instance and its host object after the call.  [set], [get], [delete]
    and [load] throw before they change anything. *)
Definition invoke (m : method) (this : Database) (src : Source) :
    Database * Source :=
  match m with
  | MSet key v =>
      match Part000.set key v this src with
      | Returns r => r | Throws _ => (this, src) end
  | MGet key =>
      match Part000.get key this src with
      | Returns (_, this') => (this', src) | Throws _ => (this, src) end
  | MDelete key =>
      match Part000.delete key this src with
      | Returns (_, this', src') => (this', src') | Throws _ => (this, src) end
  | MDeleteValue key =>
      match Part000.deleteValue key this src with
      | Returns r => r | Throws _ => (this, src) end
  | MClear => Part000.clear this src
  | MValues => ((Part000.values this src).2, src)
  | MEntries => ((Part000.entries this src).2, src)
  | MLoad key =>
      match Part000.load key this src with
      | Returns this' => (this', src) | Throws _ => (this, src) end
  | MUnload key => (Part000.unload key this, src)
  | MEnableCache => (Part000.enableCache this, src)
  | MDisableCache => (Part000.disableCache this, src)
  end.

Definition step (e : event) (w : World) : World :=
  match e with
  | ENew id source =>
      match Part000.new_Database id source w with
      | Returns (_, w') => w' | Throws _ => w end
  | ECall a m =>
      match heap w !! a with
      | None => w
      | Some this =>
          let '(this', src') :=
            invoke m this (source_of w (_storageSource this)) in
          {| sources := <[_storageSource this := src']> (sources w);
             heap := <[a := this']> (heap w);
             DB_INSTANCES := DB_INSTANCES w |}
      end
  | EHostWrite source id v =>
      {| sources :=
           <[source := setDynamicProperty id v (source_of w source)]>
             (sources w);
         heap := heap w;
         DB_INSTANCES := DB_INSTANCES w |}
  end.

Definition run (es : list event) (w : World) : World :=
  foldl (λ w e, step e w) w es.

End run.

(** ** A JSON instance for closed inputs

    [scalar_JSON] reads the scalar texts [null], [true], [false] and the
    integers, and refuses every other text; it writes values the way
    [JSON.stringify] does (lone surrogates apart).  It serves to evaluate the
    model on concrete inputs. *)

Definition hex_digit (n : N) : N := if n <? 10 then 48 + n else 87 + n.

Definition escape_unit (c : N) : jsstring :=
  if c =? 34 then lit "\" ++ [34]
  else if c =? 92 then lit "\\"
  else if c =? 8 then lit "\b"
  else if c =? 9 then lit "\t"
  else if c =? 10 then lit "\n"
  else if c =? 12 then lit "\f"
  else if c =? 13 then lit "\r"
  else if c <? 32 then lit "\u00" ++ [hex_digit (c / 16); hex_digit (c mod 16)]
  else [c].

Definition quote (s : jsstring) : jsstring :=
  [34] ++ flat_map escape_unit s ++ [34].

Fixpoint stringify (v : value) : jsstring :=
  match v with
  | VUndefined => lit "undefined"
  | VNull => lit "null"
  | VBool true => lit "true"
  | VBool false => lit "false"
  | VNumber n => decimalZ n
  | VString s => quote s
  | VObject props =>
      lit "{"
      ++ (fix members (first : bool) (l : list (jsstring * value)) : jsstring :=
            match l with
            | [] => []
            | (k, VUndefined) :: l' => members first l'
            | (k, e) :: l' =>
                (if first then [] else lit ",") ++ quote k ++ lit ":"
                ++ stringify e ++ members false l'
            end) true props
      ++ lit "}"
  | VArray elems =>
      lit "["
      ++ (fix items (first : bool) (l : list value) : jsstring :=
            match l with
            | [] => []
            | e :: l' =>
                (if first then [] else lit ",")
                ++ match e with VUndefined => lit "null" | _ => stringify e end
                ++ items false l'
            end) true elems
      ++ lit "]"
  end.

Definition parse_nat (ds : jsstring) : option Z :=
  match ds with
  | [] => None
  | [48] => Some 0%Z
  | 48 :: _ => None
  | _ =>
      if forallb is_digit ds
      then Some (fold_left (λ acc d, acc * 10 + Z.of_N (d - 48))%Z ds 0%Z)
      else None
  end.

Definition parse_scalar (s : jsstring) : option value :=
  if decide (s = lit "null") then Some VNull
  else if decide (s = lit "true") then Some (VBool true)
  else if decide (s = lit "false") then Some (VBool false)
  else
    match s with
    | 45 :: ds => (λ n, VNumber (- n)) <$> parse_nat ds
    | _ => VNumber <$> parse_nat s
    end.

Lemma parse_scalar_defined s : parse_scalar s ≠ Some VUndefined.
Proof.
  unfold parse_scalar. repeat case_decide; try discriminate.
  destruct s as [|c ds]; [discriminate|].
  destruct (c =? 45) eqn:E.
  - apply N.eqb_eq in E as ->. destruct (parse_nat ds); discriminate.
  - assert (parse_scalar_aux : ∀ o : option Z, VNumber <$> o ≠ Some VUndefined)
      by (intros [?|]; discriminate).
    destruct c as [|p]; [apply parse_scalar_aux|].
    do 6 (destruct p as [p|p|]; try apply parse_scalar_aux).
    all: try (destruct (parse_nat ds); discriminate).
Qed.

Definition scalar_JSON : JSON :=
  {| JSON_stringify := stringify;
     JSON_parse := parse_scalar;
     JSON_parse_defined := parse_scalar_defined |}.

(** * The vocabulary of the properties *)

(** The ids under which a key is stored. *)
Definition native_id (this : Database) (key : jsstring) : jsstring :=
  Part000._buildKey this key KEY_TYPE_NATIVE None.
Definition string_id (this : Database) (key : jsstring) : jsstring :=
  Part000._buildKey this key KEY_TYPE_STRING None.
Definition meta_id (this : Database) (key : jsstring) : jsstring :=
  Part000._buildKey this key KEY_TYPE_META_CHUNK None.
Definition data_id (this : Database) (key : jsstring) (i : nat) : jsstring :=
  Part000._buildKey this key KEY_TYPE_DATA_CHUNK (Some i).

(** The instance [new Database(id, source)] starts from, before the scan. *)
Definition instance_of (id : jsstring) (source : nat) : Database :=
  {| _storageSource := source; _databaseId := id;
     _fullPrefixBase := INTERNAL_DB_PREFIX ++ id ++ lit "_";
     _dataCache := ∅; _knownKeys := []; _autoCache := true |}.

(** The empty process. *)
Definition world0 : World :=
  {| sources := ∅; heap := []; DB_INSTANCES := ∅ |}.

(** The pieces of [s] of size [c] at offsets [0], [c], ..., [(n-1) * c]. *)
Definition pieces (c n : nat) (s : jsstring) : list jsstring :=
  List.map (λ i, take c (drop (i * c) s)) (seq 0 n).

(** [n] is the least number of pieces of size [c] that cover [len] units. *)
Definition covers (c len n : nat) : Prop :=
  (len ≤ n * c ∧ n * c < len + c)%nat.

(** [chunks] cuts [s] into consecutive pieces of size [c], the last one
    possibly shorter. *)
Definition is_chunking (c : nat) (s : jsstring) (chunks : list jsstring) :
    Prop :=
  concat chunks = s
  ∧ covers c (length s) (length chunks)
  ∧ ∀ j ch, chunks !! j = Some ch →
      ch = take c (drop (j * c) s)
      ∧ (0 < length ch ≤ c)%nat
      ∧ (S j < length chunks → length ch = c)%nat.

Section vocabulary.
Context `{JSON}.

(** [processed] in [set]. *)
Definition payload (v : value) : value :=
  if is_object v && negb (Part000._isVector v)
  then VString (JSON_stringify v) else v.

(** The [try]/[catch] at the end of [get]. *)
Definition decode (stringVal : value) : value :=
  if truthy stringVal then
    match JSON_parse (ToString stringVal) with
    | Some parsed => parsed
    | None => stringVal
    end
  else VUndefined.

(** What the read path of [get] makes of a value that [set] stored. *)
Definition readback (v : value) : value :=
  if is_string (payload v) then decode (payload v) else v.

(** The value [get] reads from the host object. *)
Definition read_value (this : Database) (key : jsstring) (src : Source) :
    value :=
  let nativeVal := getDynamicProperty (native_id this key) src in
  if negb (is_undefined nativeVal) then nativeVal
  else
    let stringVal := getDynamicProperty (string_id this key) src in
    decode
      (if is_undefined stringVal then
         match getDynamicProperty (meta_id this key) src with
         | VNumber chunkCount =>
             VString (Part000.read_chunks this key chunkCount src)
         | _ => stringVal
         end
       else stringVal).

(** The entries [set] writes after its erasures. *)
Definition encode_into (this : Database) (key : jsstring) (v : value)
    (src : Source) : Source :=
  match payload v with
  | VString s =>
      if MAX_CHUNK_SIZE <? N.of_nat (length s) then
        Part000.write_chunks this key 0 (Part000._splitIntoChunks s)
          (setDynamicProperty (meta_id this key)
             (VNumber (Z.of_nat (length (Part000._splitIntoChunks s)))) src)
      else setDynamicProperty (string_id this key) (VString s) src
  | _ => setDynamicProperty (native_id this key) v src
  end.

(** The instance after [set]. *)
Definition index_and_cache (key : jsstring) (v : value) (this : Database) :
    Database :=
  let this := with_knownKeys (Set_add key) (with_dataCache (Map_delete key) this) in
  if _autoCache this then with_dataCache (Map_set key v) this else this.

(** The values the read path of [get] gives back as they were set. *)
Inductive survives_decoding : value → Prop :=
  | survives_number n : survives_decoding (VNumber n)
  | survives_boolean b : survives_decoding (VBool b)
  | survives_vector v : Part000._isVector v = true → survives_decoding v
  | survives_text s :
      s ≠ [] → JSON_parse s = None → survives_decoding (VString s)
  | survives_object v :
      is_object v = true → Part000._isVector v = false →
      JSON_stringify v ≠ [] → JSON_parse (JSON_stringify v) = Some v →
      survives_decoding v.

(** A value whose encoding is a single entry, or [undefined]. *)
Definition unchunked (v : value) : Prop :=
  ∀ p, payload v = VString p → N.of_nat (length p) ≤ MAX_CHUNK_SIZE.

(** The writes of the encoding [set] chooses for [v]. *)
Definition encoding_writes (this : Database) (key : jsstring) (v : value) :
    list (jsstring * value) :=
  match payload v with
  | VString s =>
      if MAX_CHUNK_SIZE <? N.of_nat (length s) then
        (meta_id this key,
         VNumber (Z.of_nat (length (Part000._splitIntoChunks s))))
        :: imap (λ j ch, (data_id this key j, VString ch))
             (Part000._splitIntoChunks s)
      else [(string_id this key, VString s)]
  | _ => [(native_id this key, v)]
  end.

End vocabulary.

(** A host object in which ["k"] has a count of 2 and only its first chunk. *)
Definition torn_source : Source :=
  setDynamicProperty (data_id (instance_of (lit "db") 0) (lit "k") 0)
    (VString (lit "ab"))
    (setDynamicProperty (meta_id (instance_of (lit "db") 0) (lit "k"))
       (VNumber 2) empty_source).

(** The 70000-character string of the specification's scenario. *)
Definition blob : jsstring := repeat 97 (N.to_nat 70000).

(** One step of the scan of [_initializeFromProperties]. *)
Definition scan_step (this : Database) (prop : jsstring) : Database :=
  match keyRegex_match (_fullPrefixBase this) prop with
  | Some key => with_knownKeys (Set_add key) this
  | None => this
  end.

(** [DB_INSTANCES.get(source)?.get(id)] is the object at address [a]. *)
Definition registered (w : World) (source : nat) (id : jsstring) (a : nat) :
    Prop :=
  DB_INSTANCES w !! source ≫= (λ m, m !! id) = Some a.

(** The registry holds addresses of allocated objects only. *)
Definition registry_ok (w : World) : Prop :=
  ∀ source id a, registered w source id a → (a < length (heap w))%nat.

(** The value a call returned, without the state. *)
Definition returned {A B} (r : result (A * B)) : result A :=
  match r with
  | Returns (a, _) => Returns a
  | Throws e => Throws e
  end.

(** The key index lists exactly the keys that have a NATIVE, STRING or
    META_CHUNK entry. *)
Definition index_consistent (this : Database) (src : Source) : Prop :=
  ∀ key, Set_has key (_knownKeys this) = Part000._checkKeyExists this key src.

(** Every registered address holds the instance of its pair. *)
Definition registry_wf (w : World) : Prop :=
  ∀ source id a,
    registered w source id a →
    ∃ this,
      heap w !! a = Some this
      ∧ _storageSource this = source
      ∧ _databaseId this = id
      ∧ _fullPrefixBase this = INTERNAL_DB_PREFIX ++ id ++ lit "_".

(** The writes a call added to the log. *)
Definition new_writes (before after : Source) : list (jsstring * value) :=
  drop (length (writes before)) (writes after).

(** Two instances with the same identity and index. *)
Definition same_index (this this' : Database) : Prop :=
  _fullPrefixBase this' = _fullPrefixBase this
  ∧ _databaseId this' = _databaseId this
  ∧ _storageSource this' = _storageSource this
  ∧ _autoCache this' = _autoCache this
  ∧ _knownKeys this' = _knownKeys this.

(** * Properties *)

(** ** Strings and entry ids *)

Lemma strip_prefix_app p r : strip_prefix p (p ++ r) = Some r.
Proof.
  induction p as [|a p IH]; simpl; [done|]. by rewrite N.eqb_refl.
Qed.

Lemma strip_prefix_Some p s r : strip_prefix p s = Some r → s = p ++ r.
Proof.
  revert s. induction p as [|a p IH]; intros [|b s]; simpl; try congruence.
  destruct (a =? b) eqn:E; [|done].
  apply N.eqb_eq in E as ->. intros Hs. by rewrite (IH _ Hs).
Qed.

Lemma startsWith_true s p : startsWith s p = true ↔ ∃ r, s = p ++ r.
Proof.
  unfold startsWith. split.
  - destruct (strip_prefix p s) as [r|] eqn:E; [|done].
    intros _. exists r. by apply strip_prefix_Some.
  - intros [r ->]. by rewrite strip_prefix_app.
Qed.

Lemma lit_inj s1 s2 : lit s1 = lit s2 → s1 = s2.
Proof.
  unfold lit. intros E.
  rewrite <- (string_of_list_ascii_of_string s1),
          <- (string_of_list_ascii_of_string s2).
  f_equal. revert E.
  generalize (list_ascii_of_string s1) (list_ascii_of_string s2).
  induction l as [|a l IH]; intros [|b l']; simpl; try done.
  intros [= Hab Hl]. f_equal; [|by apply IH].
  by rewrite <- (ascii_N_embedding a), <- (ascii_N_embedding b), Hab.
Qed.

Lemma decimal_inj i j : decimal i = decimal j → i = j.
Proof.
  intros E%lit_inj.
  assert (Some (Nat.to_uint i) = Some (Nat.to_uint j)) as [= E'].
  { by rewrite <- !NilEmpty.usu, E. }
  by rewrite <- (Unsigned.of_to i), <- (Unsigned.of_to j), E'.
Qed.

Lemma native_id_eq this key :
  native_id this key = _fullPrefixBase this ++ [78; 95] ++ key.
Proof. reflexivity. Qed.

Lemma string_id_eq this key :
  string_id this key = _fullPrefixBase this ++ [83; 95] ++ key.
Proof. reflexivity. Qed.

Lemma meta_id_eq this key :
  meta_id this key = _fullPrefixBase this ++ [77; 95] ++ key.
Proof. reflexivity. Qed.

Lemma data_id_eq this key i :
  data_id this key i
  = _fullPrefixBase this ++ [68; 95] ++ key ++ [95] ++ decimal i.
Proof. reflexivity. Qed.

Lemma ids_distinct this key i :
  native_id this key ≠ string_id this key
  ∧ native_id this key ≠ meta_id this key
  ∧ string_id this key ≠ meta_id this key
  ∧ data_id this key i ≠ native_id this key
  ∧ data_id this key i ≠ string_id this key
  ∧ data_id this key i ≠ meta_id this key.
Proof.
  rewrite native_id_eq, string_id_eq, meta_id_eq, data_id_eq.
  repeat split; intros E%app_inv_head; discriminate.
Qed.

Lemma data_id_inj this key i j : data_id this key i = data_id this key j → i = j.
Proof.
  rewrite !data_id_eq. intros E.
  do 3 apply app_inv_head in E. simpl in E.
  injection E as E. by apply decimal_inj.
Qed.

(** ** The host object *)

Lemma getDynamicProperty_set id id' v src :
  getDynamicProperty id' (setDynamicProperty id v src)
  = if decide (id = id') then v else getDynamicProperty id' src.
Proof.
  unfold getDynamicProperty, setDynamicProperty; simpl.
  case_decide as E.
  - subst id'. destruct v; by rewrite ?lookup_delete_eq, ?lookup_insert_eq.
  - destruct v; by rewrite ?lookup_delete_ne, ?lookup_insert_ne.
Qed.

Lemma getDynamicProperty_set_eq id v src :
  getDynamicProperty id (setDynamicProperty id v src) = v.
Proof. rewrite getDynamicProperty_set. by rewrite decide_True. Qed.

Lemma getDynamicProperty_set_ne id id' v src :
  id ≠ id' →
  getDynamicProperty id' (setDynamicProperty id v src)
  = getDynamicProperty id' src.
Proof. intros. rewrite getDynamicProperty_set. by rewrite decide_False. Qed.

Lemma properties_set_ne id id' v src :
  id ≠ id' →
  properties (setDynamicProperty id v src) !! id' = properties src !! id'.
Proof.
  intros. unfold setDynamicProperty; simpl.
  destruct v; by rewrite ?lookup_delete_ne, ?lookup_insert_ne.
Qed.

Lemma properties_erase id src :
  properties (setDynamicProperty id VUndefined src) !! id = None.
Proof. apply lookup_delete_eq. Qed.

Lemma elem_of_getDynamicPropertyIds id src :
  id ∈ getDynamicPropertyIds src ↔ is_Some (properties src !! id).
Proof.
  unfold getDynamicPropertyIds. rewrite list_elem_of_fmap. split.
  - intros [[id' v] [-> Hin]]. apply elem_of_map_to_list in Hin. by exists v.
  - intros [v Hv]. exists (id, v). split; [done|]. by apply elem_of_map_to_list.
Qed.

(** ** [_deleteKeyChunks]

    The count is read after the META_CHUNK entry was erased, so the loop over
    the DATA_CHUNK entries never runs. *)

Lemma _deleteKeyChunks_eq this key src :
  Part000._deleteKeyChunks this key src
  = setDynamicProperty (meta_id this key) VUndefined
      (setDynamicProperty (string_id this key) VUndefined
         (setDynamicProperty (native_id this key) VUndefined src)).
Proof.
  unfold Part000._deleteKeyChunks. cbn [foldl].
  fold (native_id this key) (string_id this key) (meta_id this key).
  by rewrite getDynamicProperty_set_eq.
Qed.

Lemma _deleteKeyChunks_writes this key src :
  writes (Part000._deleteKeyChunks this key src)
  = writes src
    ++ [(native_id this key, VUndefined); (string_id this key, VUndefined);
        (meta_id this key, VUndefined)].
Proof. rewrite _deleteKeyChunks_eq. simpl. by rewrite <- !app_assoc. Qed.

Lemma _deleteKeyChunks_erases this key src :
  getDynamicProperty (native_id this key) (Part000._deleteKeyChunks this key src)
  = VUndefined
  ∧ getDynamicProperty (string_id this key)
      (Part000._deleteKeyChunks this key src) = VUndefined
  ∧ getDynamicProperty (meta_id this key)
      (Part000._deleteKeyChunks this key src) = VUndefined.
Proof.
  rewrite _deleteKeyChunks_eq.
  destruct (ids_distinct this key 0) as (Hns & Hnm & Hsm & _).
  repeat split.
  - rewrite !getDynamicProperty_set_ne by done.
    apply getDynamicProperty_set_eq.
  - rewrite getDynamicProperty_set_ne by done.
    apply getDynamicProperty_set_eq.
  - apply getDynamicProperty_set_eq.
Qed.

Lemma _deleteKeyChunks_other this key src id :
  id ≠ native_id this key → id ≠ string_id this key → id ≠ meta_id this key →
  properties (Part000._deleteKeyChunks this key src) !! id
  = properties src !! id.
Proof.
  intros. rewrite _deleteKeyChunks_eq. by rewrite !properties_set_ne.
Qed.

(** No DATA_CHUNK entry is touched. *)
Lemma _deleteKeyChunks_keeps_data this key src i :
  properties (Part000._deleteKeyChunks this key src) !! data_id this key i
  = properties src !! data_id this key i.
Proof.
  destruct (ids_distinct this key i) as (_ & _ & _ & Hn & Hs & Hm).
  by apply _deleteKeyChunks_other.
Qed.

(** ** Splitting into chunks *)

Lemma covers_unique c len n m : covers c len n → covers c len m → n = m.
Proof. unfold covers. nia. Qed.

Lemma pieces_length c n s : length (pieces c n s) = n.
Proof. unfold pieces. by rewrite length_map, length_seq. Qed.

Lemma pieces_lookup c n s j :
  (j < n)%nat → pieces c n s !! j = Some (take c (drop (j * c) s)).
Proof.
  intros Hj. unfold pieces.
  rewrite list_lookup_fmap, lookup_seq_lt by done. done.
Qed.

Lemma pieces_concat c n s : concat (pieces c n s) = take (n * c) s.
Proof.
  unfold pieces. induction n as [|n IH]; [done|].
  rewrite seq_S, map_app, concat_app, IH. simpl.
  rewrite app_nil_r, take_take_drop. f_equal. lia.
Qed.

Lemma pieces_cover c s n :
  covers c (length s) n → concat (pieces c n s) = s.
Proof. intros [Hle _]. rewrite pieces_concat. by apply take_ge. Qed.

Lemma pieces_sizes c s n j ch :
  (0 < c)%nat → covers c (length s) n → pieces c n s !! j = Some ch →
  (0 < length ch ≤ c)%nat ∧ (S j < n → length ch = c)%nat.
Proof.
  intros Hc [Hle Hlt] Hj.
  assert (j < n)%nat as Hjn.
  { apply lookup_lt_Some in Hj. by rewrite pieces_length in Hj. }
  rewrite pieces_lookup in Hj by done. injection Hj as <-.
  rewrite length_take, length_drop. nia.
Qed.

Lemma substring_chunk i c s :
  (i ≤ length s)%nat → substring i (i + c) s = take c (drop i s).
Proof.
  intros Hi. unfold substring.
  rewrite (Nat.min_l i) by done.
  destruct (decide (i + c ≤ length s)%nat).
  - rewrite (Nat.min_l (i + c)) by done.
    rewrite Nat.max_r, Nat.min_l by lia. f_equal. lia.
  - rewrite (Nat.min_r (i + c)) by lia.
    rewrite Nat.max_r, Nat.min_l by lia.
    rewrite !take_ge; [done| |]; rewrite length_drop; lia.
Qed.

Lemma MAX_CHUNK_SIZE_pos : (0 < N.to_nat MAX_CHUNK_SIZE)%nat.
Proof. unfold MAX_CHUNK_SIZE. lia. Qed.

Lemma split_loop_S fuel i str :
  Part000.split_loop (S fuel) i str
  = if (i <? length str)%nat
    then substring i (i + N.to_nat MAX_CHUNK_SIZE) str
         :: Part000.split_loop fuel (i + N.to_nat MAX_CHUNK_SIZE) str
    else [].
Proof. reflexivity. Qed.

Lemma split_loop_lookup fuel i str j :
  (length str - i ≤ fuel)%nat →
  (i + j * N.to_nat MAX_CHUNK_SIZE < length str)%nat →
  Part000.split_loop fuel i str !! j
  = Some (take (N.to_nat MAX_CHUNK_SIZE)
            (drop (i + j * N.to_nat MAX_CHUNK_SIZE) str)).
Proof.
  pose proof MAX_CHUNK_SIZE_pos as Hc.
  revert i j. induction fuel as [|fuel IH]; intros i j Hfuel Hj; [nia|].
  rewrite split_loop_S.
  destruct (Nat.ltb_spec i (length str)) as [Hi|Hi]; [|nia].
  destruct j as [|j].
  - rewrite substring_chunk by lia. simpl. do 3 f_equal. lia.
  - rewrite lookup_cons. rewrite IH by nia. do 3 f_equal. lia.
Qed.

Lemma split_loop_covers fuel i str :
  (length str - i ≤ fuel)%nat →
  covers (N.to_nat MAX_CHUNK_SIZE) (length str - i)
    (length (Part000.split_loop fuel i str)).
Proof.
  pose proof MAX_CHUNK_SIZE_pos as Hc. unfold covers.
  revert i. induction fuel as [|fuel IH]; intros i Hfuel.
  - simpl. lia.
  - rewrite split_loop_S.
    destruct (Nat.ltb_spec i (length str)) as [Hi|Hi].
    + specialize (IH (i + N.to_nat MAX_CHUNK_SIZE)%nat ltac:(lia)).
      rewrite length_cons.
      set (c := N.to_nat MAX_CHUNK_SIZE) in *.
      set (n := length (Part000.split_loop fuel (i + c) str)) in *.
      clearbody c n. clear Hfuel.
      destruct (decide (i + c ≤ length str)%nat).
      * replace (length str - (i + c))%nat
          with (length str - i - c)%nat in IH by lia.
        assert (c ≤ length str - i)%nat by lia.
        generalize dependent (length str - i)%nat. intros. nia.
      * replace (length str - (i + c))%nat with 0%nat in IH by lia.
        assert (n = 0)%nat by nia. subst n. lia.
    + simpl. lia.
Qed.

(** [_splitIntoChunks] has the fuel it needs: more changes nothing. *)
Lemma split_loop_fuel fuel fuel' i str :
  (length str - i ≤ fuel)%nat → (length str - i ≤ fuel')%nat →
  Part000.split_loop fuel i str = Part000.split_loop fuel' i str.
Proof.
  pose proof MAX_CHUNK_SIZE_pos as Hc.
  revert fuel' i. induction fuel as [|fuel IH]; intros fuel' i Hfuel Hfuel'.
  - destruct fuel' as [|fuel']; [done|]. rewrite split_loop_S.
    destruct (Nat.ltb_spec i (length str)); [lia|done].
  - rewrite split_loop_S.
    destruct (Nat.ltb_spec i (length str)) as [Hi|Hi].
    + destruct fuel' as [|fuel']; [lia|]. rewrite split_loop_S.
      destruct (Nat.ltb_spec i (length str)); [|lia].
      f_equal. apply IH; lia.
    + destruct fuel' as [|fuel']; [done|]. rewrite split_loop_S.
      destruct (Nat.ltb_spec i (length str)); [lia|done].
Qed.

Lemma _splitIntoChunks_covers str :
  covers (N.to_nat MAX_CHUNK_SIZE) (length str)
    (length (Part000._splitIntoChunks str)).
Proof.
  unfold Part000._splitIntoChunks.
  pose proof (split_loop_covers (length str) 0 str) as Hcov.
  rewrite Nat.sub_0_r in Hcov. apply Hcov. lia.
Qed.

Lemma _splitIntoChunks_pieces str :
  Part000._splitIntoChunks str
  = pieces (N.to_nat MAX_CHUNK_SIZE)
      (length (Part000._splitIntoChunks str)) str.
Proof.
  pose proof (_splitIntoChunks_covers str) as [Hle Hlt].
  apply list_eq. intros j.
  destruct (decide (j < length (Part000._splitIntoChunks str))%nat) as [Hj|Hj].
  - rewrite pieces_lookup by done.
    unfold Part000._splitIntoChunks in *.
    rewrite split_loop_lookup by nia. done.
  - rewrite !lookup_ge_None_2; [done| |]; rewrite ?pieces_length; lia.
Qed.

(** ** Writing and reading the DATA_CHUNK entries *)

Lemma data_id_prefix this this' key i :
  _fullPrefixBase this' = _fullPrefixBase this →
  data_id this' key i = data_id this key i.
Proof. intros E. by rewrite !data_id_eq, E. Qed.

Lemma write_chunks_other this key i chunks src id :
  (∀ j, (j < length chunks)%nat → id ≠ data_id this key (i + j)) →
  properties (Part000.write_chunks this key i chunks src) !! id
  = properties src !! id.
Proof.
  revert i src. induction chunks as [|ch chunks IH]; intros i src Hid; [done|].
  simpl. rewrite IH.
  - apply properties_set_ne. fold (data_id this key i).
    specialize (Hid 0%nat). rewrite Nat.add_0_r in Hid.
    intros E. apply Hid; [simpl; lia|done].
  - intros j Hj. replace (S i + j)%nat with (i + S j)%nat by lia.
    apply Hid. simpl. lia.
Qed.

Lemma write_chunks_data this key i chunks src j ch :
  chunks !! j = Some ch →
  getDynamicProperty (data_id this key (i + j))
    (Part000.write_chunks this key i chunks src) = VString ch.
Proof.
  revert i j src. induction chunks as [|c0 chunks IH]; intros i j src Hj;
    [done|].
  destruct j as [|j]; simpl in *.
  - injection Hj as ->. unfold getDynamicProperty.
    rewrite write_chunks_other.
    + rewrite Nat.add_0_r. fold (data_id this key i).
      unfold setDynamicProperty; simpl. by rewrite lookup_insert_eq.
    + intros j _ E%data_id_inj. lia.
  - replace (i + S j)%nat with (S i + j)%nat by lia. by apply IH.
Qed.

Lemma write_chunks_writes this key i chunks src :
  writes (Part000.write_chunks this key i chunks src)
  = writes src
    ++ imap (λ j ch, (data_id this key (i + j), VString ch)) chunks.
Proof.
  revert i src. induction chunks as [|ch chunks IH]; intros i src; simpl.
  - by rewrite app_nil_r.
  - rewrite IH. simpl. rewrite <- app_assoc. simpl.
    rewrite Nat.add_0_r. do 2 f_equal.
    apply imap_ext. intros j ? _. simpl. do 2 f_equal. lia.
Qed.

Lemma read_chunks_from this key src acc i chunks :
  (∀ j ch, chunks !! j = Some ch →
     getDynamicProperty (data_id this key (i + j)) src = VString ch) →
  foldl
    (λ stringVal j,
       stringVal ++ ToString (getDynamicProperty (data_id this key j) src))
    acc (seq i (length chunks))
  = acc ++ concat chunks.
Proof.
  revert acc i. induction chunks as [|ch chunks IH]; intros acc i Hread; simpl.
  - by rewrite app_nil_r.
  - rewrite IH.
    + rewrite <- app_assoc. do 2 f_equal.
      specialize (Hread 0%nat ch eq_refl). rewrite Nat.add_0_r in Hread.
      by rewrite Hread.
    + intros j c Hj. replace (S i + j)%nat with (i + S j)%nat by lia.
      by apply Hread.
Qed.

Lemma read_chunks_written this key src chunks :
  (∀ j ch, chunks !! j = Some ch →
     getDynamicProperty (data_id this key j) src = VString ch) →
  Part000.read_chunks this key (Z.of_nat (length chunks)) src = concat chunks.
Proof.
  intros Hread. unfold Part000.read_chunks. rewrite Nat2Z.id.
  by apply (read_chunks_from this key src [] 0 chunks).
Qed.

(** ** Only the prefix of an instance matters to its entry ids *)

Lemma _buildKey_prefix this this' key t index :
  _fullPrefixBase this' = _fullPrefixBase this →
  Part000._buildKey this' key t index = Part000._buildKey this key t index.
Proof. intros E. unfold Part000._buildKey. by rewrite E. Qed.

Lemma write_chunks_prefix this this' key i chunks src :
  _fullPrefixBase this' = _fullPrefixBase this →
  Part000.write_chunks this' key i chunks src
  = Part000.write_chunks this key i chunks src.
Proof.
  intros E. revert i src.
  induction chunks as [|ch chunks IH]; intros i src; simpl; [done|].
  by rewrite IH, (_buildKey_prefix this this').
Qed.

Lemma read_chunks_prefix this this' key n src :
  _fullPrefixBase this' = _fullPrefixBase this →
  Part000.read_chunks this' key n src = Part000.read_chunks this key n src.
Proof.
  intros E. unfold Part000.read_chunks.
  generalize (seq 0 (Z.to_nat n)) ([] : jsstring).
  induction l as [|j l IH]; intros acc; simpl; [done|].
  by rewrite IH, (_buildKey_prefix this this').
Qed.

Lemma _checkKeyExists_prefix this this' key src :
  _fullPrefixBase this' = _fullPrefixBase this →
  Part000._checkKeyExists this' key src = Part000._checkKeyExists this key src.
Proof.
  intros E. unfold Part000._checkKeyExists. simpl.
  by rewrite !(_buildKey_prefix this this').
Qed.

Lemma _deleteKeyChunks_prefix this this' key src :
  _fullPrefixBase this' = _fullPrefixBase this →
  Part000._deleteKeyChunks this' key src = Part000._deleteKeyChunks this key src.
Proof.
  intros E. rewrite !_deleteKeyChunks_eq. unfold meta_id, string_id, native_id.
  by rewrite !(_buildKey_prefix this this').
Qed.

(** ** What [set] writes and what [get] reads back *)

Section read_write.
Context `{JSON}.

Lemma _isVector_string s : Part000._isVector (VString s) = false.
Proof. unfold Part000._isVector. simpl. by rewrite andb_false_r. Qed.

Lemma payload_string v :
  is_string (payload v) = true → Part000._isVector v = false.
Proof.
  unfold payload.
  destruct (is_object v && negb (Part000._isVector v)) eqn:E.
  - apply andb_true_iff in E as [_ E]. by apply negb_true_iff in E.
  - destruct v; try discriminate. intros _. apply _isVector_string.
Qed.

Lemma payload_not_string v : is_string (payload v) = false → payload v = v.
Proof.
  unfold payload. by destruct (is_object v && negb (Part000._isVector v)).
Qed.

Lemma get_eq key this src :
  Part000.get key this src
  = if blank key then Throws (lit "Key must be a non-empty string")
    else if Map_has key (_dataCache this)
    then Returns (Map_get key (_dataCache this), this)
    else if negb (Set_has key (_knownKeys this))
            && negb (Part000._checkKeyExists this key src)
    then Returns (VUndefined, this)
    else Returns (Part000._cacheValue key (read_value this key src) this).
Proof.
  unfold Part000.get, read_value, decode.
  fold (native_id this key) (string_id this key) (meta_id this key).
  destruct (blank key); [done|].
  destruct (Map_has key (_dataCache this)); [done|].
  destruct (negb (Set_has key (_knownKeys this))
            && negb (Part000._checkKeyExists this key src)); [done|].
  destruct (negb (is_undefined (getDynamicProperty (native_id this key) src)));
    [done|].
  match goal with |- context [truthy ?s] => generalize s end.
  intros stringVal. destruct (truthy stringVal); [|reflexivity].
  by destruct (JSON_parse (ToString stringVal)).
Qed.

Lemma set_eq key v this src :
  is_undefined v = false →
  Part000.set key v this src
  = if blank key then Throws (lit "Key must be a non-empty string")
    else Returns (index_and_cache key v this,
                  encode_into this key v
                    (Part000._deleteKeyChunks this key src)).
Proof.
  intros Hv. unfold Part000.set, index_and_cache, encode_into.
  destruct (blank key); [done|]. rewrite Hv.
  fold (payload v). f_equal. f_equal.
  fold (native_id this key) (string_id this key) (meta_id this key).
  destruct (is_string (payload v)) eqn:Hs.
  - pose proof (payload_string v Hs) as Hvec.
    destruct (payload v) as [| | | |s| |]; try discriminate. simpl.
    destruct (MAX_CHUNK_SIZE <? N.of_nat (length s)).
    + by apply write_chunks_prefix.
    + by rewrite Hvec.
  - rewrite (payload_not_string v Hs) in *.
    destruct v; try discriminate; simpl;
      by destruct (Part000._isVector _).
Qed.

Lemma read_value_prefix this this' key src :
  _fullPrefixBase this' = _fullPrefixBase this →
  read_value this' key src = read_value this key src.
Proof.
  intros E. unfold read_value, native_id, string_id, meta_id.
  rewrite !(_buildKey_prefix this this') by done.
  destruct (getDynamicProperty
              (Part000._buildKey this key KEY_TYPE_META_CHUNK None) src);
    try done.
  by rewrite (read_chunks_prefix this this').
Qed.

Lemma getDynamicProperty_write_chunks_other this key i chunks src id :
  (∀ j, id ≠ data_id this key j) →
  getDynamicProperty id (Part000.write_chunks this key i chunks src)
  = getDynamicProperty id src.
Proof.
  intros Hid. unfold getDynamicProperty.
  rewrite write_chunks_other; [done|]. intros j _. apply Hid.
Qed.

(** The entries of [key] right after [set] wrote [v]. *)
Lemma encode_into_entries this key v src :
  is_undefined v = false →
  let src0 := Part000._deleteKeyChunks this key src in
  let src1 := encode_into this key v src0 in
  match payload v with
  | VString s =>
      getDynamicProperty (native_id this key) src1 = VUndefined
      ∧ if MAX_CHUNK_SIZE <? N.of_nat (length s) then
          getDynamicProperty (string_id this key) src1 = VUndefined
          ∧ getDynamicProperty (meta_id this key) src1
            = VNumber (Z.of_nat (length (Part000._splitIntoChunks s)))
          ∧ ∀ j ch, Part000._splitIntoChunks s !! j = Some ch →
              getDynamicProperty (data_id this key j) src1 = VString ch
        else getDynamicProperty (string_id this key) src1 = VString s
  | _ => getDynamicProperty (native_id this key) src1 = v
  end.
Proof.
  intros Hv src0 src1.
  destruct (_deleteKeyChunks_erases this key src) as (Hn & Hs & Hm).
  fold src0 in Hn, Hs, Hm.
  assert (∀ j, native_id this key ≠ data_id this key j) as Hnd
    by (intros j; destruct (ids_distinct this key j) as (_&_&_&?&_); done).
  assert (∀ j, string_id this key ≠ data_id this key j) as Hsd
    by (intros j; destruct (ids_distinct this key j) as (_&_&_&_&?&_); done).
  assert (∀ j, meta_id this key ≠ data_id this key j) as Hmd
    by (intros j; destruct (ids_distinct this key j) as (_&_&_&_&_&?); done).
  destruct (ids_distinct this key 0) as (Hns & Hnm & Hsm & _).
  subst src1. unfold encode_into.
  destruct (payload v) as [| | | |s| |];
    try apply getDynamicProperty_set_eq.
  destruct (MAX_CHUNK_SIZE <? N.of_nat (length s)).
  - rewrite !getDynamicProperty_write_chunks_other by done.
    rewrite !getDynamicProperty_set_ne by done.
    rewrite getDynamicProperty_set_eq.
    repeat split; try done.
    intros j ch Hj. by apply (write_chunks_data this key 0).
  - rewrite getDynamicProperty_set_ne by done.
    by rewrite getDynamicProperty_set_eq.
Qed.

Lemma read_after_write this this' key v src :
  is_undefined v = false →
  _fullPrefixBase this' = _fullPrefixBase this →
  read_value this' key
    (encode_into this key v (Part000._deleteKeyChunks this key src))
  = readback v.
Proof.
  intros Hv E. rewrite (read_value_prefix this this') by done.
  pose proof (encode_into_entries this key v src Hv) as Hent. simpl in Hent.
  unfold read_value, readback.
  destruct (is_string (payload v)) eqn:Hs.
  - destruct (payload v) as [| | | |s| |]; try discriminate.
    destruct Hent as [-> Hent]. simpl.
    destruct (MAX_CHUNK_SIZE <? N.of_nat (length s)) eqn:Hlen.
    + destruct Hent as (-> & -> & Hdata). simpl.
      rewrite read_chunks_written by done.
      rewrite _splitIntoChunks_pieces, pieces_cover; [done|].
      apply _splitIntoChunks_covers.
    + by rewrite Hent.
  - rewrite (payload_not_string v Hs) in Hent.
    assert (getDynamicProperty (native_id this key)
              (encode_into this key v (Part000._deleteKeyChunks this key src))
            = v) as ->.
    { destruct v; try done; discriminate. }
    by rewrite Hv.
Qed.

Lemma exists_after_write this this' key v src :
  is_undefined v = false →
  _fullPrefixBase this' = _fullPrefixBase this →
  Part000._checkKeyExists this' key
    (encode_into this key v (Part000._deleteKeyChunks this key src)) = true.
Proof.
  intros Hv E. rewrite (_checkKeyExists_prefix this this') by done.
  pose proof (encode_into_entries this key v src Hv) as Hent. simpl in Hent.
  unfold Part000._checkKeyExists. simpl.
  fold (native_id this key) (string_id this key) (meta_id this key).
  destruct (is_string (payload v)) eqn:Hs.
  - destruct (payload v) as [| | | |s| |]; try discriminate.
    destruct Hent as [-> Hent]. simpl.
    destruct (MAX_CHUNK_SIZE <? N.of_nat (length s)).
    + by destruct Hent as (-> & -> & _).
    + by rewrite Hent.
  - rewrite (payload_not_string v Hs) in Hent.
    assert (getDynamicProperty (native_id this key)
              (encode_into this key v (Part000._deleteKeyChunks this key src))
            = v) as ->.
    { destruct v; try done; discriminate. }
    by rewrite Hv.
Qed.

End read_write.

(** ** Reading a key back *)

Section round_trip.
Context `{JSON}.

Lemma survives_readback v : survives_decoding v → readback v = v.
Proof.
  unfold readback, payload, decode.
  destruct 1 as [n|b|v Hvec|s Hs Hparse|v Hobj Hvec Hs Hparse]; try done.
  - rewrite Hvec. simpl. rewrite andb_false_r.
    destruct v; try done. by rewrite _isVector_string in Hvec.
  - simpl. rewrite Hparse. by destruct s.
  - rewrite Hobj, Hvec. simpl. rewrite Hparse.
    by destruct (JSON_stringify v).
Qed.

Lemma set_returns key v this src :
  blank key = false →
  ∃ this1 src1, Part000.set key v this src = Returns (this1, src1).
Proof.
  intros Hk. unfold Part000.set. rewrite Hk.
  destruct (is_undefined v); eauto.
Qed.

Lemma set_throws key v this src :
  blank key = true →
  Part000.set key v this src = Throws (lit "Key must be a non-empty string").
Proof. intros Hk. unfold Part000.set. by rewrite Hk. Qed.

Lemma set_inv key v this src this1 src1 :
  is_undefined v = false →
  Part000.set key v this src = Returns (this1, src1) →
  blank key = false
  ∧ this1 = index_and_cache key v this
  ∧ src1 = encode_into this key v (Part000._deleteKeyChunks this key src).
Proof.
  intros Hv. rewrite set_eq by done.
  destruct (blank key); [discriminate|]. by intros [= <- <-].
Qed.

Lemma index_and_cache_fields key v this :
  _fullPrefixBase (index_and_cache key v this) = _fullPrefixBase this
  ∧ _autoCache (index_and_cache key v this) = _autoCache this
  ∧ Set_has key (_knownKeys (index_and_cache key v this)) = true
  ∧ _dataCache (index_and_cache key v this) !! key
    = if _autoCache this then Some v else None.
Proof.
  unfold index_and_cache. simpl.
  assert (Set_has key (Set_add key (_knownKeys this)) = true) as Hin.
  { unfold Set_add. destruct (Set_has key (_knownKeys this)) eqn:E; [done|].
    unfold Set_has. apply bool_decide_eq_true. set_solver. }
  destruct (_autoCache this) eqn:Ha; simpl; split_and!; try done.
  - apply lookup_insert_eq.
  - apply lookup_delete_eq.
Qed.

(** [get] on a key that is not cached but stored: the value read from the
    host object, cached when [autoCache] is on. *)
Lemma get_stored key this src :
  blank key = false → _dataCache this !! key = None →
  Part000._checkKeyExists this key src = true →
  Part000.get key this src
  = Returns (Part000._cacheValue key (read_value this key src) this).
Proof.
  intros Hk Hcache Hex. rewrite get_eq, Hk.
  unfold Map_has. rewrite Hcache.
  rewrite bool_decide_eq_false_2 by (by intros [? ?]).
  by rewrite Hex, andb_false_r.
Qed.

Lemma get_cached key this src v :
  blank key = false → _dataCache this !! key = Some v →
  Part000.get key this src = Returns (v, this).
Proof.
  intros Hk Hcache. rewrite get_eq, Hk.
  unfold Map_has, Map_get. rewrite Hcache.
  by rewrite bool_decide_eq_true_2 by eauto.
Qed.

Lemma get_after_set key v this src this1 src1 :
  is_undefined v = false →
  Part000.set key v this src = Returns (this1, src1) →
  Part000.get key this1 src1
  = Returns (if _autoCache this then v else readback v, this1).
Proof.
  intros Hv Hset.
  destruct (set_inv _ _ _ _ _ _ Hv Hset) as (Hk & -> & ->).
  destruct (index_and_cache_fields key v this) as (Hpre & Hauto & Hin & Hc).
  destruct (_autoCache this) eqn:Ha.
  - by apply get_cached.
  - rewrite get_stored; try done.
    + rewrite read_after_write by done.
      unfold Part000._cacheValue. by rewrite Hauto.
    + by apply exists_after_write.
Qed.

Lemma get_after_unload key v this src this1 src1 :
  is_undefined v = false →
  Part000.set key v this src = Returns (this1, src1) →
  Part000.get key (Part000.unload key this1) src1
  = Returns (Part000._cacheValue key (readback v) (Part000.unload key this1)).
Proof.
  intros Hv Hset.
  destruct (set_inv _ _ _ _ _ _ Hv Hset) as (Hk & -> & ->).
  destruct (index_and_cache_fields key v this) as (Hpre & _).
  rewrite get_stored; try done.
  - by rewrite read_after_write.
  - apply lookup_delete_eq.
  - by apply exists_after_write.
Qed.

(** C3, as amended.  After [set(key, v)] returned, [get(key)] on the same
    instance returns [v] itself when [autoCache] is on (the cached original),
    and what the read path decodes from the stored entries when it is off;
    this is [v] again for a number, a boolean, a vector, a non-empty string
    that [JSON.parse] rejects, and an object that [JSON.parse] rebuilds from
    its serialization.  [set] returns for every key that has a character
    other than white space ([set_returns], [set_throws]). *)
Theorem set_then_get key v this src this1 src1 :
  is_undefined v = false →
  Part000.set key v this src = Returns (this1, src1) →
  Part000.get key this1 src1
  = Returns (if _autoCache this then v else readback v, this1)
  ∧ (_autoCache this = true ∨ survives_decoding v →
     Part000.get key this1 src1 = Returns (v, this1)).
Proof.
  intros Hv Hset.
  pose proof (get_after_set _ _ _ _ _ _ Hv Hset) as Hget.
  split; [done|]. rewrite Hget.
  intros [->|Hs]; [done|]. rewrite (survives_readback v Hs).
  by destruct (_autoCache this).
Qed.

(** C4, as amended.  After [set(key, v)] and [unload(key)], [get(key)] reads
    the host object and returns what the read path decodes; this is [v] for a
    number, a boolean, a vector, a non-empty string that [JSON.parse]
    rejects, and an object that [JSON.parse] rebuilds from its
    serialization. *)
Theorem set_unload_get key v this src this1 src1 :
  is_undefined v = false →
  Part000.set key v this src = Returns (this1, src1) →
  Part000.get key (Part000.unload key this1) src1
  = Returns (Part000._cacheValue key (readback v) (Part000.unload key this1))
  ∧ (survives_decoding v →
     Part000.get key (Part000.unload key this1) src1
     = Returns (Part000._cacheValue key v (Part000.unload key this1))).
Proof.
  intros Hv Hset.
  pose proof (get_after_unload _ _ _ _ _ _ Hv Hset) as Hget.
  split; [done|]. intros Hs. by rewrite Hget, (survives_readback v Hs).
Qed.

(** C10.  After [set(key, "")] returned (it returns for every key with a
    character other than white space, and throws for the others), the STRING
    entry holds the empty string; once the cache does not hold the key, with
    [autoCache] off or after [unload(key)], [has(key)] is true and [get(key)]
    returns [undefined]. *)
Theorem empty_string_reads_as_absent key this src this1 src1 :
  Part000.set key (VString []) this src = Returns (this1, src1) →
  properties src1 !! string_id this key = Some (VString [])
  ∧ (_autoCache this = false →
     Part000.has key this1 src1 = true
     ∧ Part000.get key this1 src1 = Returns (VUndefined, this1))
  ∧ Part000.has key (Part000.unload key this1) src1 = true
  ∧ Part000.get key (Part000.unload key this1) src1
    = Returns (Part000._cacheValue key VUndefined (Part000.unload key this1)).
Proof.
  intros Hset.
  assert (is_undefined (VString []) = false) as Hv by done.
  pose proof (get_after_set _ _ _ _ _ _ Hv Hset) as Hget.
  pose proof (get_after_unload _ _ _ _ _ _ Hv Hset) as Hget'.
  destruct (set_inv _ _ _ _ _ _ Hv Hset) as (Hk & -> & ->).
  destruct (index_and_cache_fields key (VString []) this)
    as (Hpre & Hauto & Hin & Hc).
  assert (∀ this', _knownKeys this' = _knownKeys
            (index_and_cache key (VString []) this) →
          ∀ src', Part000.has key this' src' = true) as Hhas.
  { intros this' E src'. unfold Part000.has. rewrite E, Hin.
    by rewrite orb_true_r. }
  split; [|split; [|split]].
  - unfold encode_into, payload. simpl. apply lookup_insert_eq.
  - intros Ha. rewrite Ha in Hget. split; [by apply Hhas|done].
  - by apply Hhas.
  - done.
Qed.

End round_trip.

(** *** Closed instances *)

(** With [autoCache] off, the empty string set under ["k"] is read back as
    [undefined]. *)
Lemma set_then_get_counterexample :
  ∃ this1 src1,
    @Part000.set scalar_JSON (lit "k") (VString [])
      (Part000.disableCache (instance_of (lit "db") 0)) empty_source
    = Returns (this1, src1)
    ∧ @Part000.get scalar_JSON (lit "k") this1 src1
      = Returns (VUndefined, this1)
    ∧ VUndefined ≠ VString [].
Proof.
  eexists _, _. split; [reflexivity|].
  split; [vm_compute; reflexivity|discriminate].
Qed.

Lemma set_then_get_witness :
  ∃ this1 src1,
    @Part000.set scalar_JSON (lit "name") (VString (lit "hello"))
      (Part000.disableCache (instance_of (lit "db") 0)) empty_source
    = Returns (this1, src1)
    ∧ @Part000.get scalar_JSON (lit "name") this1 src1
      = Returns (VString (lit "hello"), this1).
Proof.
  eexists _, _. split; [reflexivity|].
  apply (proj2 (@set_then_get scalar_JSON (lit "name") (VString (lit "hello"))
                  (Part000.disableCache (instance_of (lit "db") 0))
                  empty_source _ _ eq_refl eq_refl)).
  right. apply survives_text; [discriminate|reflexivity].
Defined.

(** The empty string set under ["k"] and unloaded is read back as
    [undefined]. *)
Lemma set_unload_get_counterexample :
  ∃ this1 src1 this2,
    @Part000.set scalar_JSON (lit "k") (VString [])
      (instance_of (lit "db") 0) empty_source
    = Returns (this1, src1)
    ∧ @Part000.get scalar_JSON (lit "k") (Part000.unload (lit "k") this1) src1
      = Returns (VUndefined, this2)
    ∧ VUndefined ≠ VString [].
Proof.
  eexists _, _, _. split; [reflexivity|].
  split; [vm_compute; reflexivity|discriminate].
Qed.

Lemma set_unload_get_witness :
  ∃ this1 src1 this2,
    @Part000.set scalar_JSON (lit "pos")
      (VObject [(lit "x", VNumber 1); (lit "y", VNumber 2); (lit "z", VNumber 3)])
      (instance_of (lit "db") 0) empty_source
    = Returns (this1, src1)
    ∧ @Part000.get scalar_JSON (lit "pos") (Part000.unload (lit "pos") this1)
        src1
      = Returns
          (VObject
             [(lit "x", VNumber 1); (lit "y", VNumber 2); (lit "z", VNumber 3)],
           this2).
Proof.
  eexists _, _, _. split; [reflexivity|].
  apply (proj2 (@set_unload_get scalar_JSON (lit "pos")
                  (VObject [(lit "x", VNumber 1); (lit "y", VNumber 2);
                            (lit "z", VNumber 3)])
                  (instance_of (lit "db") 0) empty_source _ _
                  eq_refl eq_refl)).
  apply survives_vector. reflexivity.
Defined.

Lemma empty_string_reads_as_absent_witness :
  ∃ this1 src1,
    @Part000.set scalar_JSON (lit "k") (VString [])
      (instance_of (lit "db") 0) empty_source
    = Returns (this1, src1)
    ∧ Part000.has (lit "k") (Part000.unload (lit "k") this1) src1 = true
    ∧ @Part000.get scalar_JSON (lit "k") (Part000.unload (lit "k") this1) src1
      = Returns
          (Part000._cacheValue (lit "k") VUndefined
             (Part000.unload (lit "k") this1)).
Proof.
  eexists _, _. split; [reflexivity|].
  apply (@empty_string_reads_as_absent scalar_JSON (lit "k")
           (instance_of (lit "db") 0) empty_source _ _ eq_refl).
Defined.

(** ** A missing DATA_CHUNK entry *)

Lemma read_loop_nonempty this key src (l : list nat) acc :
  acc ≠ [] ∨
  (∃ j, j ∈ l ∧ getDynamicProperty (data_id this key j) src = VUndefined) →
  foldl
    (λ stringVal j,
       stringVal ++ ToString (getDynamicProperty (data_id this key j) src))
    acc l ≠ [].
Proof.
  revert acc. induction l as [|j l IH]; intros acc [Hacc|(i & Hi & Hmiss)];
    simpl; try done.
  - by apply elem_of_nil in Hi.
  - apply IH. left. by destruct acc.
  - apply elem_of_cons in Hi as [->|Hi].
    + apply IH. left. rewrite Hmiss. by destruct acc.
    + apply IH. right. eauto.
Qed.

Lemma read_chunks_missing this key src n i :
  (0 ≤ i < n)%Z →
  getDynamicProperty (data_id this key (Z.to_nat i)) src = VUndefined →
  Part000.read_chunks this key n src ≠ [].
Proof.
  intros Hi Hmiss. apply read_loop_nonempty. right.
  exists (Z.to_nat i). split; [|done].
  apply elem_of_seq. lia.
Qed.

Section missing_chunk.
Context `{JSON}.

(** C5 fails on the code.  When the META_CHUNK entry of an uncached key
    records [n] chunks and one of them is missing, [get] neither throws nor
    returns [undefined]: it returns a value made from a text in which
    ["undefined"] stands for the missing chunk. *)
Theorem missing_chunk_is_read key this src n i :
  blank key = false → _dataCache this !! key = None →
  getDynamicProperty (native_id this key) src = VUndefined →
  getDynamicProperty (string_id this key) src = VUndefined →
  getDynamicProperty (meta_id this key) src = VNumber n →
  (0 ≤ i < n)%Z →
  getDynamicProperty (data_id this key (Z.to_nat i)) src = VUndefined →
  ∃ v this',
    Part000.get key this src = Returns (v, this')
    ∧ v ≠ VUndefined
    ∧ v = decode (VString (Part000.read_chunks this key n src)).
Proof.
  intros Hk Hcache Hn Hs Hm Hi Hmiss.
  rewrite get_stored; try done.
  - assert (read_value this key src
            = decode (VString (Part000.read_chunks this key n src))) as ->.
    { unfold read_value. by rewrite Hn, Hs, Hm. }
    eexists _, _. split; [reflexivity|]. split; [|reflexivity].
    pose proof (read_chunks_missing this key src n i Hi Hmiss) as Hne.
    unfold decode. simpl.
    destruct (Part000.read_chunks this key n src) as [|c s] eqn:E; [done|].
    destruct (JSON_parse (c :: s)) as [parsed|] eqn:Hp; [|done].
    intros ->. by apply JSON_parse_defined in Hp.
  - unfold Part000._checkKeyExists. simpl.
    fold (native_id this key) (string_id this key) (meta_id this key).
    by rewrite Hn, Hs, Hm.
Qed.

(** [JSONStorage.load] checks each chunk and gives up with the empty string. *)
Lemma load_chunks_missing this (l : list nat) world i :
  i ∈ l →
  is_string (getDynamicProperty (JSONStorage.getChunkKey this i) world) = false →
  JSONStorage.load_chunks this l world = None.
Proof.
  induction l as [|j l IH]; intros Hi Hmiss; [by apply elem_of_nil in Hi|].
  simpl. apply elem_of_cons in Hi as [->|Hi].
  - by destruct (getDynamicProperty (JSONStorage.getChunkKey this j) world).
  - rewrite IH by done.
    by destruct (getDynamicProperty (JSONStorage.getChunkKey this j) world).
Qed.

Lemma JSONStorage_load_missing this world n i :
  getDynamicProperty (JSONStorage.getCountKey this) world = VNumber n →
  (0 ≤ i < n)%Z →
  is_string
    (getDynamicProperty (JSONStorage.getChunkKey this (Z.to_nat i)) world)
  = false →
  JSONStorage.load this world = Some (VString []).
Proof.
  intros Hn Hi Hmiss. unfold JSONStorage.load. rewrite Hn.
  destruct (n =? 0)%Z; [done|].
  rewrite (load_chunks_missing this _ world (Z.to_nat i)); try done.
  apply elem_of_seq. lia.
Qed.

End missing_chunk.

Lemma missing_chunk_is_read_witness :
  ∃ v this',
    @Part000.get scalar_JSON (lit "k") (instance_of (lit "db") 0) torn_source
    = Returns (v, this')
    ∧ v ≠ VUndefined
    ∧ v = VString (lit "abundefined").
Proof.
  destruct (@missing_chunk_is_read scalar_JSON (lit "k")
              (instance_of (lit "db") 0) torn_source 2 1)
    as (v & this' & Hget & Hv & Hval);
    [reflexivity|reflexivity|reflexivity|reflexivity|reflexivity|lia
    |reflexivity|].
  exists v, this'. split; [done|]. split; [done|].
  rewrite Hval. reflexivity.
Defined.

(** ** Orphaned DATA_CHUNK entries *)

Lemma blob_length : length blob = N.to_nat 70000.
Proof. unfold blob. apply repeat_length. Qed.

Lemma Set_has_delete key l : Set_has key (Set_delete key l) = false.
Proof.
  unfold Set_has, Set_delete. apply bool_decide_eq_false.
  rewrite list_elem_of_filter. tauto.
Qed.

Lemma Set_has_add key k l :
  Set_has key l = true → Set_has key (Set_add k l) = true.
Proof.
  unfold Set_add. destruct (Set_has k l); [done|].
  unfold Set_has. rewrite !bool_decide_eq_true. set_solver.
Qed.

Lemma Set_has_add_eq key l : Set_has key (Set_add key l) = true.
Proof.
  unfold Set_add. destruct (Set_has key l) eqn:E; [done|].
  unfold Set_has. rewrite bool_decide_eq_true. set_solver.
Qed.

Section orphans.
Context `{JSON}.

Lemma set_keeps_data key v this src this1 src1 j :
  unchunked v →
  Part000.set key v this src = Returns (this1, src1) →
  properties src1 !! data_id this key j = properties src !! data_id this key j.
Proof.
  intros Hv Hset.
  destruct (ids_distinct this key j) as (_ & _ & _ & Hn & Hs & Hm).
  destruct (is_undefined v) eqn:Hu.
  - unfold Part000.set in Hset. destruct (blank key); [discriminate|].
    rewrite Hu in Hset. injection Hset as _ <-.
    apply _deleteKeyChunks_keeps_data.
  - destruct (set_inv _ _ _ _ _ _ Hu Hset) as (_ & _ & ->).
    unfold encode_into.
    destruct (payload v) as [| | | |p| |] eqn:Hp;
      try (rewrite properties_set_ne by done;
           apply _deleteKeyChunks_keeps_data).
    specialize (Hv p Hp).
    destruct (N.ltb_spec MAX_CHUNK_SIZE (N.of_nat (length p))); [lia|].
    rewrite properties_set_ne by done.
    apply _deleteKeyChunks_keeps_data.
Qed.

Lemma set_chunked_entries key s this src this1 src1 :
  MAX_CHUNK_SIZE < N.of_nat (length s) →
  Part000.set key (VString s) this src = Returns (this1, src1) →
  blank key = false
  ∧ _fullPrefixBase this1 = _fullPrefixBase this
  ∧ getDynamicProperty (meta_id this key) src1
    = VNumber (Z.of_nat (length (Part000._splitIntoChunks s)))
  ∧ ∀ j ch, Part000._splitIntoChunks s !! j = Some ch →
      properties src1 !! data_id this key j = Some (VString ch).
Proof.
  intros Hlen Hset.
  assert (is_undefined (VString s) = false) as Hv by done.
  destruct (set_inv _ _ _ _ _ _ Hv Hset) as (Hk & -> & ->).
  destruct (index_and_cache_fields key (VString s) this) as (Hpre & _).
  pose proof (encode_into_entries this key (VString s) src Hv) as Hent.
  simpl in Hent. destruct Hent as [_ Hent].
  apply N.ltb_lt in Hlen. rewrite Hlen in Hent.
  destruct Hent as (_ & Hmeta & Hdata).
  split_and!; try done.
  intros j ch Hj. specialize (Hdata j ch Hj).
  unfold getDynamicProperty in Hdata.
  destruct (properties _ !! data_id this key j) as [w|]; simpl in Hdata;
    by subst.
Qed.

(** C1 fails on the code.  A key stored in chunks and then set to a value
    that takes a single entry (or to [undefined]) keeps every DATA_CHUNK
    entry of the old value: [_deleteKeyChunks] erases the META_CHUNK entry
    and then reads the count from it. *)
Theorem set_keeps_old_chunks key s v this src this1 src1 this2 src2 :
  MAX_CHUNK_SIZE < N.of_nat (length s) →
  Part000.set key (VString s) this src = Returns (this1, src1) →
  unchunked v →
  Part000.set key v this1 src1 = Returns (this2, src2) →
  ∀ j ch, Part000._splitIntoChunks s !! j = Some ch →
    properties src2 !! data_id this key j = Some (VString ch).
Proof.
  intros Hlen Hset1 Hv Hset2 j ch Hj.
  destruct (set_chunked_entries _ _ _ _ _ _ Hlen Hset1)
    as (_ & Hpre & _ & Hdata).
  rewrite <- (data_id_prefix this this1) by done.
  rewrite (set_keeps_data _ _ _ _ _ _ j Hv Hset2).
  rewrite (data_id_prefix this this1) by done. by apply Hdata.
Qed.

End orphans.

Lemma blob_chunk j :
  (j < 3)%nat →
  Part000._splitIntoChunks blob !! j
  = Some (take (N.to_nat MAX_CHUNK_SIZE)
            (drop (0 + j * N.to_nat MAX_CHUNK_SIZE) blob)).
Proof.
  intros Hj. unfold Part000._splitIntoChunks.
  apply split_loop_lookup; rewrite blob_length; unfold MAX_CHUNK_SIZE; lia.
Qed.

Lemma set_keeps_old_chunks_witness :
  ∃ this1 src1 this2 src2,
    @Part000.set scalar_JSON (lit "k") (VString blob)
      (instance_of (lit "db") 0) empty_source
    = Returns (this1, src1)
    ∧ @Part000.set scalar_JSON (lit "k") (VNumber 1) this1 src1
      = Returns (this2, src2)
    ∧ ∀ j, (j < 3)%nat →
        is_Some
          (properties src2 !! data_id (instance_of (lit "db") 0) (lit "k") j).
Proof.
  eexists _, _, _, _. split; [reflexivity|]. split; [reflexivity|].
  intros j Hj. eexists.
  eapply (@set_keeps_old_chunks scalar_JSON (lit "k") blob (VNumber 1)
            (instance_of (lit "db") 0) empty_source).
  - rewrite blob_length. unfold MAX_CHUNK_SIZE. lia.
  - reflexivity.
  - intros p Hp. discriminate Hp.
  - reflexivity.
  - by apply blob_chunk.
Defined.

(** ** The startup scan finds the orphans *)

Lemma index_suffix_inside k' :
  k' ≠ [] → index_suffix (k' ++ [95; 48]) = false.
Proof.
  destruct k' as [|d k']; [done|]. intros _.
  assert (forallb is_digit (k' ++ [95; 48]) = false) as Hnd.
  { rewrite forallb_app. simpl. apply andb_false_r. }
  change ((d :: k') ++ [95; 48]) with (d :: (k' ++ [95; 48])).
  destruct (k' ++ [95; 48]) as [|e rest] eqn:E; [by destruct k'|].
  unfold index_suffix. rewrite Hnd. apply andb_false_r.
Qed.

Lemma dot_plus_lazy_key acc key :
  key ≠ [] →
  forallb (λ c, negb (is_line_terminator c)) key = true →
  dot_plus_lazy acc (key ++ [95; 48]) = Some (acc ++ key).
Proof.
  revert acc. induction key as [|c key IH]; intros acc Hne Hlt; [done|].
  simpl in Hlt. apply andb_true_iff in Hlt as [Hc Hlt].
  apply negb_true_iff in Hc.
  change (dot_plus_lazy acc ((c :: key) ++ [95; 48]))
    with (if is_line_terminator c then None
          else if index_suffix (key ++ [95; 48]) then Some (acc ++ [c])
          else dot_plus_lazy (acc ++ [c]) (key ++ [95; 48])).
  rewrite Hc. destruct key as [|d key].
  - done.
  - rewrite index_suffix_inside by done.
    rewrite IH by done. by rewrite <- app_assoc.
Qed.

Lemma keyRegex_match_data this key :
  key ≠ [] →
  forallb (λ c, negb (is_line_terminator c)) key = true →
  keyRegex_match (_fullPrefixBase this) (data_id this key 0) = Some key.
Proof.
  intros Hne Hlt. rewrite data_id_eq.
  assert (keyRegex_here (_fullPrefixBase this)
            (_fullPrefixBase this ++ [68; 95] ++ key ++ [95] ++ decimal 0)
          = Some key) as Hhere.
  { unfold keyRegex_here. rewrite strip_prefix_app. simpl.
    change (key ++ 95 :: decimal 0) with (key ++ [95; 48]).
    by rewrite dot_plus_lazy_key. }
  destruct (_fullPrefixBase this ++ [68; 95] ++ key ++ [95] ++ decimal 0);
    simpl; by rewrite Hhere.
Qed.

Lemma scan_step_prefix this prop :
  _fullPrefixBase (scan_step this prop) = _fullPrefixBase this.
Proof. unfold scan_step. by destruct keyRegex_match. Qed.

Lemma scan_keeps key (l : list jsstring) this :
  Set_has key (_knownKeys this) = true →
  Set_has key (_knownKeys (foldl scan_step this l)) = true.
Proof.
  revert this. induction l as [|prop l IH]; intros this Hin; [done|].
  simpl. apply IH. unfold scan_step.
  destruct keyRegex_match; [|done]. simpl. by apply Set_has_add.
Qed.

Lemma scan_finds key id (l : list jsstring) this :
  id ∈ l → keyRegex_match (_fullPrefixBase this) id = Some key →
  Set_has key (_knownKeys (foldl scan_step this l)) = true.
Proof.
  revert this. induction l as [|prop l IH]; intros this Hid Hm;
    [by apply elem_of_nil in Hid|].
  simpl. apply elem_of_cons in Hid as [<-|Hid].
  - apply scan_keeps. unfold scan_step. rewrite Hm. simpl.
    apply Set_has_add_eq.
  - apply IH; [done|]. by rewrite scan_step_prefix.
Qed.

Lemma _initializeFromProperties_finds this src id key :
  is_Some (properties src !! id) →
  startsWith id (_fullPrefixBase this) = true →
  keyRegex_match (_fullPrefixBase this) id = Some key →
  Set_has key (_knownKeys (Part000._initializeFromProperties this src)) = true.
Proof.
  intros Hid Hpre Hm. unfold Part000._initializeFromProperties.
  apply (scan_finds key id); [|done].
  apply list_elem_of_In, filter_In. split; [|done].
  by apply list_elem_of_In, elem_of_getDynamicPropertyIds.
Qed.

Lemma new_Database_fresh id source w :
  blank id = false →
  DB_INSTANCES w !! source ≫= (λ m, m !! id) = None →
  ∃ w',
    Part000.new_Database id source w = Returns (length (heap w), w')
    ∧ heap w' !! length (heap w)
      = Some (Part000._initializeFromProperties (instance_of id source)
                (source_of w source))
    ∧ sources w' = sources w.
Proof.
  intros Hid Hreg. unfold Part000.new_Database. rewrite Hid, Hreg.
  eexists. split; [reflexivity|]. simpl. split; [|done].
  rewrite lookup_app_r by done. by rewrite Nat.sub_diag.
Qed.

Lemma has_after_delete key this src existed this1 src1 :
  Part000.delete key this src = Returns (existed, this1, src1) →
  Part000.has key this1 src1 = false
  ∧ src1 = Part000._deleteKeyChunks this key src
  ∧ _fullPrefixBase this1 = _fullPrefixBase this.
Proof.
  unfold Part000.delete. destruct (blank key); [discriminate|].
  intros [= _ <- <-]. split; [|done].
  unfold Part000.has. simpl.
  rewrite Set_has_delete. unfold Map_has, Map_delete.
  rewrite lookup_delete_eq.
  rewrite bool_decide_eq_false_2 by (by intros [? ?]). simpl.
  unfold Part000._checkKeyExists. simpl.
  destruct (_deleteKeyChunks_erases this key src) as (Hn & Hs & Hm).
  unfold native_id, string_id, meta_id in *.
  rewrite !(_buildKey_prefix this
              (with_knownKeys _ (with_dataCache _ this))) by done.
  by rewrite Hn, Hs, Hm.
Qed.

Section deletion.
Context `{JSON}.

(** C2 fails on the code.  [delete] of a key stored in chunks erases the
    META_CHUNK entry and reports the key gone, but every DATA_CHUNK entry
    stays; the scan of a new process finds them and indexes the key again
    (for a key without line terminators, which the pattern's [.] rejects,
    and a database id without syntax characters, which the pattern reads
    as written). *)
Theorem delete_keeps_chunks key s this src this1 src1 existed this2 src2 :
  MAX_CHUNK_SIZE < N.of_nat (length s) →
  Part000.set key (VString s) this src = Returns (this1, src1) →
  Part000.delete key this1 src1 = Returns (existed, this2, src2) →
  forallb (λ c, negb (is_line_terminator c)) key = true →
  properties src2 !! meta_id this key = None
  ∧ (∀ j ch, Part000._splitIntoChunks s !! j = Some ch →
       properties src2 !! data_id this key j = Some (VString ch))
  ∧ Part000.has key this2 src2 = false
  ∧ ∀ id source w,
      blank id = false →
      pattern_literal id = true →
      INTERNAL_DB_PREFIX ++ id ++ lit "_" = _fullPrefixBase this →
      DB_INSTANCES w !! source ≫= (λ m, m !! id) = None →
      source_of w source = src2 →
      ∃ a w' fresh,
        Part000.new_Database id source w = Returns (a, w')
        ∧ heap w' !! a = Some fresh
        ∧ Part000.has key fresh (source_of w' source) = true.
Proof.
  intros Hlen Hset Hdel Hlt.
  destruct (set_chunked_entries _ _ _ _ _ _ Hlen Hset)
    as (Hk & Hpre & _ & Hdata).
  destruct (has_after_delete _ _ _ _ _ _ Hdel) as (Hhas & -> & Hpre2).
  rewrite (_deleteKeyChunks_prefix this this1) in Hhas |- * by done.
  assert (∀ j ch, Part000._splitIntoChunks s !! j = Some ch →
            properties (Part000._deleteKeyChunks this key src1)
              !! data_id this key j = Some (VString ch)) as Hkept.
  { intros j ch Hj. rewrite _deleteKeyChunks_keeps_data. by apply Hdata. }
  split_and!; try done.
  - rewrite _deleteKeyChunks_eq. apply properties_erase.
  - intros id source w Hid _ Hp Hreg Hsrc.
    destruct (new_Database_fresh id source w Hid Hreg) as (w' & Hnew & Hh & Hs).
    eexists _, w', _. split; [done|]. split; [done|].
    unfold Part000.has.
    assert (source_of w' source = source_of w source) as ->
      by (unfold source_of; by rewrite Hs).
    rewrite Hsrc.
    assert (key ≠ []) as Hne by (by destruct key).
    assert (_fullPrefixBase (instance_of id source) = _fullPrefixBase this)
      as Hpre3 by done.
    rewrite (_initializeFromProperties_finds _ _ (data_id this key 0) key).
    + by rewrite orb_true_r.
    + assert (Part000._splitIntoChunks s !! 0%nat
              = Some (take (N.to_nat MAX_CHUNK_SIZE)
                        (drop (0 + 0 * N.to_nat MAX_CHUNK_SIZE) s)))
        as H0.
      { unfold Part000._splitIntoChunks. apply split_loop_lookup; lia. }
      rewrite (Hkept 0%nat _ H0). eauto.
    + rewrite Hpre3, data_id_eq. apply startsWith_true. eauto.
    + rewrite Hpre3. by apply keyRegex_match_data.
Qed.

End deletion.

Lemma delete_keeps_chunks_witness :
  ∃ this1 src1 existed this2 src2 a w' fresh,
    @Part000.set scalar_JSON (lit "k") (VString blob)
      (instance_of (lit "db") 0) empty_source
    = Returns (this1, src1)
    ∧ Part000.delete (lit "k") this1 src1 = Returns (existed, this2, src2)
    ∧ (∀ j, (j < 3)%nat →
         is_Some
           (properties src2 !! data_id (instance_of (lit "db") 0) (lit "k") j))
    ∧ Part000.has (lit "k") this2 src2 = false
    ∧ Part000.new_Database (lit "db") 0
        {| sources := {[ 0%nat := src2 ]}; heap := []; DB_INSTANCES := ∅ |}
      = Returns (a, w')
    ∧ heap w' !! a = Some fresh
    ∧ Part000.has (lit "k") fresh (source_of w' 0) = true.
Proof.
  edestruct (@delete_keeps_chunks scalar_JSON (lit "k") blob
               (instance_of (lit "db") 0) empty_source)
    as (_ & Hdata & Hhas & Hfresh).
  - rewrite blob_length. unfold MAX_CHUNK_SIZE. lia.
  - reflexivity.
  - reflexivity.
  - reflexivity.
  - match type of Hhas with
    | Part000.has _ _ ?src2 = _ =>
        destruct (Hfresh (lit "db") 0%nat
                    {| sources := {[ 0%nat := src2 ]}; heap := [];
                       DB_INSTANCES := ∅ |})
          as (a & w' & fresh & Hnew & Hheap & Hhas')
    end.
    + reflexivity.
    + reflexivity.
    + reflexivity.
    + reflexivity.
    + unfold source_of. cbn [sources]. rewrite lookup_singleton_eq.
      reflexivity.
    + eexists _, _, _, _, _, a, w', fresh.
      split; [reflexivity|]. split; [reflexivity|].
      split; [|split; [exact Hhas|split; [exact Hnew|split; assumption]]].
      intros j Hj. eexists. apply Hdata. apply blob_chunk, Hj.
Defined.

(** ** [clear] and the prefix of a store *)

Lemma erase_all_lookup (l : list jsstring) src id :
  properties (foldl (λ src id, setDynamicProperty id VUndefined src) src l) !! id
  = if decide (id ∈ l) then None else properties src !! id.
Proof.
  revert src. induction l as [|a l IH]; intros src; cbn [foldl].
  - rewrite decide_False; [done|]. apply not_elem_of_nil.
  - rewrite IH. destruct (decide (id ∈ l)) as [Hin|Hin].
    + rewrite decide_True; [done|]. by apply elem_of_cons; right.
    + destruct (decide (a = id)) as [->|Hne].
      * rewrite decide_True by (apply elem_of_cons; by left).
        apply properties_erase.
      * rewrite decide_False.
        -- by apply properties_set_ne.
        -- intros [?|?]%elem_of_cons; congruence.
Qed.

Lemma prefixes_comparable p q s :
  startsWith s p = true → startsWith s q = true →
  startsWith p q = true ∨ startsWith q p = true.
Proof.
  unfold startsWith. revert q s.
  induction p as [|a p IH]; intros q s; [by right; destruct q|].
  destruct q as [|b q]; [by left|].
  destruct s as [|c s]; simpl; [done|].
  destruct (N.eqb_spec a c) as [->|]; [|done].
  destruct (N.eqb_spec b c) as [->|]; [|done].
  rewrite N.eqb_refl. apply IH.
Qed.

Lemma clear_lookup this src id :
  properties (Part000.clear this src).2 !! id
  = if startsWith id (_fullPrefixBase this) then None
    else properties src !! id.
Proof.
  unfold Part000.clear. cbn [snd]. rewrite erase_all_lookup.
  destruct (startsWith id (_fullPrefixBase this)) eqn:Hpre.
  - destruct (properties src !! id) as [v|] eqn:Hid.
    + rewrite decide_True; [done|].
      apply list_elem_of_In, filter_In. split; [|done].
      apply list_elem_of_In, elem_of_getDynamicPropertyIds. by rewrite Hid.
    + by case_decide.
  - rewrite decide_False; [done|].
    intros [_ Hin]%list_elem_of_In%filter_In. congruence.
Qed.

(** C6, as amended.  [clear()] removes exactly the entries whose id starts
    with the prefix of its store and leaves every other entry as it was: in
    particular every entry under the prefix of another store, when neither
    prefix starts with the other. *)
Theorem clear_scope this src :
  (∀ id,
     properties (Part000.clear this src).2 !! id
     = if startsWith id (_fullPrefixBase this) then None
       else properties src !! id)
  ∧ (∀ other id,
       startsWith (_fullPrefixBase other) (_fullPrefixBase this) = false →
       startsWith (_fullPrefixBase this) (_fullPrefixBase other) = false →
       startsWith id (_fullPrefixBase other) = true →
       properties (Part000.clear this src).2 !! id = properties src !! id).
Proof.
  split; [apply clear_lookup|].
  intros other id Hot Hto Hid. rewrite clear_lookup.
  destruct (startsWith id (_fullPrefixBase this)) eqn:Hpre; [|done].
  destruct (prefixes_comparable _ _ _ Hpre Hid); congruence.
Qed.

(** Stores ["a"] and ["b"] on one host object: clearing the first leaves the
    entry of the second. *)
Lemma clear_scope_witness :
  ∃ src1,
    @Part000.set scalar_JSON (lit "k") (VNumber 1) (instance_of (lit "b") 0)
      empty_source
    = Returns (index_and_cache (lit "k") (VNumber 1) (instance_of (lit "b") 0),
               src1)
    ∧ properties (Part000.clear (instance_of (lit "a") 0) src1).2
        !! native_id (instance_of (lit "b") 0) (lit "k")
      = properties src1 !! native_id (instance_of (lit "b") 0) (lit "k").
Proof.
  eexists. split; [reflexivity|].
  apply (proj2 (clear_scope (instance_of (lit "a") 0) _)
           (instance_of (lit "b") 0)); reflexivity.
Defined.

(** Stores ["a"] and ["a_b"] on one host object: clearing the first removes
    the entry the second wrote. *)
Lemma clear_scope_counterexample :
  ∃ this1 src1,
    _databaseId (instance_of (lit "a") 0)
    ≠ _databaseId (instance_of (lit "a_b") 0)
    ∧ @Part000.set scalar_JSON (lit "k") (VNumber 1)
        (instance_of (lit "a_b") 0) empty_source
      = Returns (this1, src1)
    ∧ startsWith (native_id (instance_of (lit "a_b") 0) (lit "k"))
        (_fullPrefixBase (instance_of (lit "a_b") 0)) = true
    ∧ getDynamicProperty (native_id (instance_of (lit "a_b") 0) (lit "k")) src1
      = VNumber 1
    ∧ getDynamicProperty (native_id (instance_of (lit "a_b") 0) (lit "k"))
        (Part000.clear (instance_of (lit "a") 0) src1).2
      = VUndefined.
Proof.
  eexists _, _. split; [discriminate|]. split; [reflexivity|].
  split; [reflexivity|]. split; vm_compute; reflexivity.
Qed.

(** ** Interning *)

Lemma new_Database_registered id source w a :
  blank id = false → registered w source id a →
  Part000.new_Database id source w = Returns (a, w).
Proof.
  unfold registered, Part000.new_Database. intros -> Hreg. by rewrite Hreg.
Qed.

Lemma new_Database_inv id source w a w1 :
  Part000.new_Database id source w = Returns (a, w1) →
  blank id = false ∧ registered w1 source id a
  ∧ (a < length (heap w1))%nat
    ∨ blank id = false ∧ registered w source id a ∧ w1 = w.
Proof.
  unfold Part000.new_Database, registered.
  destruct (blank id); [discriminate|].
  destruct (DB_INSTANCES w !! source ≫= (λ m, m !! id)) as [a'|] eqn:Hreg.
  - intros [= <- <-]. by right.
  - intros [= <- <-]. left. simpl. split; [done|].
    rewrite lookup_insert_eq. simpl. rewrite lookup_insert_eq.
    split; [done|]. rewrite length_app. simpl. lia.
Qed.

Section interning.
Context `{JSON}.

Lemma step_registered e w source id a :
  registered w source id a → registered (step e w) source id a.
Proof.
  intros Hreg. destruct e as [id' source'|a' m|source' pid v]; simpl.
  - unfold Part000.new_Database. destruct (blank id'); [done|].
    destruct (DB_INSTANCES w !! source' ≫= (λ m, m !! id')) as [a'|] eqn:Hreg';
      [done|].
    unfold registered in *. simpl.
    destruct (decide (source' = source)) as [->|Hs].
    + rewrite lookup_insert_eq. simpl.
      destruct (DB_INSTANCES w !! source) as [m|] eqn:Hm; simpl in *;
        [|done].
      destruct (decide (id' = id)) as [->|Hid]; [congruence|].
      by rewrite lookup_insert_ne.
    + by rewrite lookup_insert_ne.
  - destruct (heap w !! a') as [this|]; [|done].
    by destruct (invoke m this (source_of w (_storageSource this))).
  - done.
Qed.

Lemma run_registered es w source id a :
  registered w source id a → registered (run es w) source id a.
Proof.
  revert w. induction es as [|e es IH]; intros w Hreg; [done|].
  simpl. apply IH. by apply step_registered.
Qed.

Lemma step_heap e w : (length (heap w) ≤ length (heap (step e w)))%nat.
Proof.
  destruct e as [id source|a m|source pid v]; simpl.
  - unfold Part000.new_Database. destruct (blank id); [done|].
    destruct (DB_INSTANCES w !! source ≫= (λ m, m !! id)); [done|].
    simpl. rewrite length_app. lia.
  - destruct (heap w !! a) as [this|]; [|done].
    destruct (invoke m this (source_of w (_storageSource this))). simpl.
    by rewrite length_insert.
  - done.
Qed.

Lemma step_registry_ok e w : registry_ok w → registry_ok (step e w).
Proof.
  intros Hok source id a Hreg.
  pose proof (step_heap e w) as Hlen.
  destruct e as [id' source'|a' m|source' pid v]; simpl in *.
  - unfold Part000.new_Database in *. destruct (blank id');
      [by apply Hok in Hreg|].
    destruct (DB_INSTANCES w !! source' ≫= (λ m, m !! id')) as [a'|] eqn:Hreg';
      [by apply Hok in Hreg|].
    unfold registered in *. simpl in *. rewrite length_app. simpl.
    destruct (decide (source' = source)) as [->|Hs].
    + rewrite lookup_insert_eq in Hreg. simpl in Hreg.
      destruct (decide (id' = id)) as [->|Hid].
      * rewrite lookup_insert_eq in Hreg. injection Hreg as <-. lia.
      * rewrite lookup_insert_ne in Hreg by done.
        assert (registered w source id a) as Hr.
        { unfold registered.
          destruct (DB_INSTANCES w !! source) as [m|]; simpl in *; done. }
        apply Hok in Hr. lia.
    + rewrite lookup_insert_ne in Hreg by done. apply Hok in Hreg. lia.
  - destruct (heap w !! a') as [this|]; [|by apply Hok in Hreg].
    destruct (invoke m this (source_of w (_storageSource this))).
    simpl in *. rewrite length_insert. by apply Hok in Hreg.
  - by apply Hok in Hreg.
Qed.

Lemma run_registry_ok es w : registry_ok w → registry_ok (run es w).
Proof.
  revert w. induction es as [|e es IH]; intros w Hok; [done|].
  simpl. apply IH. by apply step_registry_ok.
Qed.

(** C7.  Once [new Database(id, source)] has returned an instance, every
    later construction with the same pair, whatever happened in between,
    returns that instance and allocates nothing: the two handles are one
    object, so they see one index, one cache and one host object.  In a
    process whose registry holds addresses of allocated objects only, the
    instance is still there. *)
Theorem interned id source w a w1 es :
  Part000.new_Database id source w = Returns (a, w1) →
  Part000.new_Database id source (run es w1) = Returns (a, run es w1)
  ∧ Part000.static_get id source (run es w1) = Returns (a, run es w1)
  ∧ (registry_ok w → is_Some (heap (run es w1) !! a)).
Proof.
  intros Hnew.
  assert (blank id = false ∧ registered w1 source id a) as (Hid & Hreg).
  { destruct (new_Database_inv _ _ _ _ _ Hnew) as [(?&?&?)|(? & ? & ->)];
      done. }
  pose proof (run_registered es w1 source id a Hreg) as Hreg'.
  assert (Part000.new_Database id source (run es w1) = Returns (a, run es w1))
    as Hagain by (by apply new_Database_registered).
  split; [done|]. split; [done|]. intros Hok.
  assert (registry_ok w1) as Hok1.
  { pose proof (step_registry_ok (ENew id source) w Hok) as Hs.
    simpl in Hs. by rewrite Hnew in Hs. }
  apply lookup_lt_is_Some. by apply (run_registry_ok es w1 Hok1 source id).
Qed.

End interning.

Lemma world0_ok : registry_ok world0.
Proof. intros source id a Hreg. discriminate Hreg. Qed.

Lemma interned_witness :
  ∃ w1,
    Part000.new_Database (lit "db") 0 world0 = Returns (0%nat, w1)
    ∧ Part000.new_Database (lit "db") 0
        (@run scalar_JSON
           [ECall 0 (MSet (lit "k") (VNumber 1)); ENew (lit "other") 0;
            ECall 0 MDisableCache; EHostWrite 0 (lit "x") (VBool true)] w1)
      = Returns
          (0%nat,
           @run scalar_JSON
             [ECall 0 (MSet (lit "k") (VNumber 1)); ENew (lit "other") 0;
              ECall 0 MDisableCache; EHostWrite 0 (lit "x") (VBool true)] w1)
    ∧ is_Some
        (heap
           (@run scalar_JSON
              [ECall 0 (MSet (lit "k") (VNumber 1)); ENew (lit "other") 0;
               ECall 0 MDisableCache; EHostWrite 0 (lit "x") (VBool true)] w1)
         !! 0%nat).
Proof.
  eexists. split; [reflexivity|].
  destruct (@interned scalar_JSON (lit "db") 0%nat world0 0%nat _
              [ECall 0 (MSet (lit "k") (VNumber 1)); ENew (lit "other") 0;
               ECall 0 MDisableCache; EHostWrite 0 (lit "x") (VBool true)]
              eq_refl) as (Hnew & _ & Hheap).
  split; [exact Hnew|]. apply Hheap, world0_ok.
Defined.

(** ** The chunks of a string *)

Lemma pieces_is_chunking c s n :
  (0 < c)%nat → covers c (length s) n → is_chunking c s (pieces c n s).
Proof.
  intros Hc Hcov. unfold is_chunking. rewrite pieces_length.
  split; [by apply pieces_cover|]. split; [done|].
  intros j ch Hj. split; [|by eapply pieces_sizes].
  assert (j < n)%nat as Hjn.
  { apply lookup_lt_Some in Hj. by rewrite pieces_length in Hj. }
  rewrite pieces_lookup in Hj by done. by injection Hj.
Qed.

Lemma ceil_div_covers (len c : nat) :
  (0 < c)%nat →
  covers c len (N.to_nat (Part001.ceil_div (N.of_nat len) (N.of_nat c))).
Proof.
  intros Hc. unfold covers, Part001.ceil_div.
  assert (N.of_nat c ≠ 0) as Hc' by lia.
  pose proof (N.div_mod (N.of_nat len) (N.of_nat c) Hc') as Hdm.
  pose proof (N.mod_lt (N.of_nat len) (N.of_nat c) Hc') as Hlt.
  set (q := N.of_nat len / N.of_nat c) in *.
  set (r := N.of_nat len mod N.of_nat c) in *. clearbody q r.
  destruct (N.eqb_spec r 0) as [E|E]; nia.
Qed.

Lemma JSONStorage_splitIntoChunks_pieces this s :
  JSONStorage.splitIntoChunks this s
  = pieces (Pos.to_nat (JSONStorage.chunkSize this))
      (N.to_nat
         (Part001.ceil_div (N.of_nat (length s))
            (Npos (JSONStorage.chunkSize this))))
      s.
Proof.
  unfold JSONStorage.splitIntoChunks, pieces, slice.
  apply map_ext. intros i. f_equal. lia.
Qed.

Lemma _splitIntoChunks_count s :
  length (Part000._splitIntoChunks s)
  = N.to_nat (Part001.ceil_div (N.of_nat (length s)) MAX_CHUNK_SIZE).
Proof.
  apply (covers_unique (N.to_nat MAX_CHUNK_SIZE) (length s)).
  - apply _splitIntoChunks_covers.
  - pose proof (ceil_div_covers (length s) (N.to_nat MAX_CHUNK_SIZE)
                  MAX_CHUNK_SIZE_pos) as Hcov.
    by rewrite N2Nat.id in Hcov.
Qed.

Section chunking.
Context `{JSON}.

(** C8.  Both splitting functions cut their input into consecutive pieces of
    the chunk size, in order, the last one possibly shorter, whose
    concatenation is the input, and they make [ceil(length / size)] of them;
    a string of 70000 units gives 3 chunks of at most 32767, and [set] of it
    writes, after its three erasures, the count 3 under META_CHUNK and the
    three pieces under DATA_CHUNK 0, 1 and 2. *)
Theorem splitIntoChunks_chunking :
  (∀ this s,
     is_chunking (Pos.to_nat (JSONStorage.chunkSize this)) s
       (JSONStorage.splitIntoChunks this s)
     ∧ length (JSONStorage.splitIntoChunks this s)
       = N.to_nat
           (Part001.ceil_div (N.of_nat (length s))
              (Npos (JSONStorage.chunkSize this))))
  ∧ (∀ s,
       is_chunking (N.to_nat MAX_CHUNK_SIZE) s (Part000._splitIntoChunks s)
       ∧ length (Part000._splitIntoChunks s)
         = N.to_nat (Part001.ceil_div (N.of_nat (length s)) MAX_CHUNK_SIZE))
  ∧ (∀ s, N.of_nat (length s) = 70000 →
       Part001.ceil_div 70000 32767 = 3
       ∧ length (Part000._splitIntoChunks s) = 3%nat
       ∧ ∀ key this src,
           blank key = false →
           ∃ this1 src1,
             Part000.set key (VString s) this src = Returns (this1, src1)
             ∧ writes src1
               = writes src
                 ++ [(native_id this key, VUndefined);
                     (string_id this key, VUndefined);
                     (meta_id this key, VUndefined);
                     (meta_id this key, VNumber 3);
                     (data_id this key 0,
                      VString (take (N.to_nat 32767) s));
                     (data_id this key 1,
                      VString
                        (take (N.to_nat 32767) (drop (N.to_nat 32767) s)));
                     (data_id this key 2,
                      VString (drop (N.to_nat 65534) s))]).
Proof.
  split; [|split].
  - intros this s. rewrite JSONStorage_splitIntoChunks_pieces.
    rewrite pieces_length. split; [|done].
    apply pieces_is_chunking; [lia|].
    pose proof (ceil_div_covers (length s)
                  (Pos.to_nat (JSONStorage.chunkSize this))) as Hcov.
    rewrite positive_nat_N in Hcov. apply Hcov. lia.
  - intros s. split; [|apply _splitIntoChunks_count].
    rewrite _splitIntoChunks_pieces.
    apply pieces_is_chunking; [apply MAX_CHUNK_SIZE_pos|].
    apply _splitIntoChunks_covers.
  - intros s Hlen.
    assert (length (Part000._splitIntoChunks s) = 3%nat) as Hcount.
    { rewrite _splitIntoChunks_count, Hlen. reflexivity. }
    split; [reflexivity|]. split; [done|].
    intros key this src Hk.
    destruct (set_returns key (VString s) this src Hk) as (this1 & src1 & Hset).
    exists this1, src1. split; [done|].
    assert (is_undefined (VString s) = false) as Hv by done.
    destruct (set_inv _ _ _ _ _ _ Hv Hset) as (_ & _ & ->).
    unfold encode_into, payload. cbn [is_object typeof andb].
    assert ((MAX_CHUNK_SIZE <? N.of_nat (length s)) = true) as ->
      by (rewrite Hlen; reflexivity).
    rewrite write_chunks_writes. cbn [writes setDynamicProperty].
    rewrite _deleteKeyChunks_writes, Hcount, <- !app_assoc.
    do 2 f_equal.
    rewrite _splitIntoChunks_pieces, Hcount.
    unfold pieces. cbn [seq List.map imap app].
    change (N.to_nat MAX_CHUNK_SIZE) with (N.to_nat 32767).
    rewrite drop_0.
    assert (take (N.to_nat 32767) (drop (2 * N.to_nat 32767) s)
            = drop (N.to_nat 65534) s) as ->.
    { replace (2 * N.to_nat 32767)%nat with (N.to_nat 65534) by lia.
      apply take_ge. rewrite length_drop. lia. }
    replace (1 * N.to_nat 32767)%nat with (N.to_nat 32767) by lia.
    reflexivity.
Qed.

End chunking.

Lemma splitIntoChunks_chunking_witness :
  length (Part000._splitIntoChunks blob) = 3%nat
  ∧ ∃ this1 src1,
      @Part000.set scalar_JSON (lit "blob") (VString blob)
        (instance_of (lit "db") 0) empty_source
      = Returns (this1, src1)
      ∧ List.map fst (writes src1)
        = [native_id (instance_of (lit "db") 0) (lit "blob");
           string_id (instance_of (lit "db") 0) (lit "blob");
           meta_id (instance_of (lit "db") 0) (lit "blob");
           meta_id (instance_of (lit "db") 0) (lit "blob");
           data_id (instance_of (lit "db") 0) (lit "blob") 0;
           data_id (instance_of (lit "db") 0) (lit "blob") 1;
           data_id (instance_of (lit "db") 0) (lit "blob") 2].
Proof.
  assert (N.of_nat (length blob) = 70000) as Hlen
    by (rewrite blob_length; lia).
  destruct (proj2 (proj2 (@splitIntoChunks_chunking scalar_JSON)) blob Hlen)
    as (_ & Hcount & Hset).
  split; [exact Hcount|].
  destruct (Hset (lit "blob") (instance_of (lit "db") 0) empty_source eq_refl)
    as (this1 & src1 & Hs & Hw).
  exists this1, src1. split; [exact Hs|]. rewrite Hw. reflexivity.
Defined.

(** ** part_000 and the first copy of part_001 *)

Lemma write_chunks_map this key (f : nat → jsstring) i n src :
  Part000.write_chunks this key i (List.map f (seq i n)) src
  = foldl
      (λ src j, setDynamicProperty (data_id this key j) (VString (f j)) src)
      src (seq i n).
Proof.
  revert i src. induction n as [|n IH]; intros i src; [done|].
  simpl. by rewrite IH.
Qed.

Lemma write_substr_chunks_pieces this key n s src :
  Part001.write_substr_chunks this key n s src
  = Part000.write_chunks this key 0 (pieces (N.to_nat MAX_CHUNK_SIZE) n s) src.
Proof. unfold pieces. by rewrite write_chunks_map. Qed.

Section copies.
Context `{JSON}.

Lemma set_agree key v this src :
  blank key = false →
  Part001.set key v this src = Part000.set key v this src.
Proof.
  intros Hk. unfold Part001.set, Part000.set. rewrite Hk.
  destruct (is_undefined v); [done|].
  generalize (if is_object v && negb (Part000._isVector v)
              then VString (JSON_stringify v) else v).
  intros processed.
  destruct (is_string processed
            && (MAX_CHUNK_SIZE <? N.of_nat (length (ToString processed))));
    [|done].
  do 2 f_equal. cbv zeta.
  rewrite write_substr_chunks_pieces.
  rewrite (_splitIntoChunks_pieces (ToString processed)), pieces_length.
  rewrite !_splitIntoChunks_count. by rewrite N_nat_Z.
Qed.

Lemma get_agree key this src :
  blank key = false → Part001.get key this src = Part000.get key this src.
Proof. intros Hk. unfold Part001.get, Part000.get. by rewrite Hk. Qed.

Lemma delete_agree key this src :
  blank key = false →
  Part001.delete key this src = Part000.delete key this src.
Proof. intros Hk. unfold Part001.delete, Part000.delete. by rewrite Hk. Qed.

Lemma values_from_agree ks this src :
  Forall (λ key, blank key = false) ks →
  Part001.values_from ks this src = Part000.values_from ks this src.
Proof.
  intros Hks. revert this.
  induction Hks as [|key ks Hk Hks IH]; intros this; [done|].
  simpl. rewrite get_agree by done.
  destruct (Part000.get key this src) as [[v this']|e]; [|done].
  by rewrite IH.
Qed.

Lemma entries_from_agree ks this src :
  Forall (λ key, blank key = false) ks →
  Part001.entries_from ks this src = Part000.entries_from ks this src.
Proof.
  intros Hks. revert this.
  induction Hks as [|key ks Hk Hks IH]; intros this; [done|].
  simpl. rewrite get_agree by done.
  destruct (Part000.get key this src) as [[v this']|e]; [|done].
  by rewrite IH.
Qed.

(** C9, as amended.  On an id and on keys that have a character other than
    white space, the constructor, [set], [get] and [delete] of the first copy
    of part_001 give the result of part_000, with the same instance and the
    same host object, write for write; [clear], [has] and [keys] agree on
    every input, and [values] and [entries] agree when no indexed key is
    blank.  (On a blank id or key part_000 throws and part_001 goes on.) *)
Theorem copies_agree :
  (∀ id source w,
     blank id = false →
     Part001.new_Database id source w = Part000.new_Database id source w)
  ∧ (∀ key v this src,
       blank key = false →
       Part001.set key v this src = Part000.set key v this src)
  ∧ (∀ key this src,
       blank key = false →
       Part001.get key this src = Part000.get key this src)
  ∧ (∀ key this src,
       blank key = false →
       Part001.delete key this src = Part000.delete key this src)
  ∧ (∀ this src, Part001.clear this src = Part000.clear this src)
  ∧ (∀ key this src, Part001.has key this src = Part000.has key this src)
  ∧ (∀ this, Part001.keys this = Part000.keys this)
  ∧ (∀ this src,
       Forall (λ key, blank key = false) (_knownKeys this) →
       Part001.values this src = Part000.values this src
       ∧ Part001.entries this src = Part000.entries this src).
Proof.
  split_and!.
  - intros id source w Hid.
    unfold Part001.new_Database, Part000.new_Database. by rewrite Hid.
  - apply set_agree.
  - apply get_agree.
  - apply delete_agree.
  - done.
  - done.
  - done.
  - intros this src Hks. split.
    + by apply values_from_agree.
    + by apply entries_from_agree.
Qed.

End copies.

Lemma copies_agree_witness :
  @Part001.set scalar_JSON (lit "blob") (VString blob)
    (instance_of (lit "db") 0) empty_source
  = @Part000.set scalar_JSON (lit "blob") (VString blob)
      (instance_of (lit "db") 0) empty_source.
Proof.
  apply (proj1 (proj2 (@copies_agree scalar_JSON))). reflexivity.
Defined.

(** On the key [" "], part_000 throws and part_001 writes an entry. *)
Lemma copies_agree_counterexample :
  ∃ this1 src1,
    @Part000.set scalar_JSON (lit " ") (VNumber 1) (instance_of (lit "db") 0)
      empty_source
    = Throws (lit "Key must be a non-empty string")
    ∧ @Part001.set scalar_JSON (lit " ") (VNumber 1) (instance_of (lit "db") 0)
        empty_source
      = Returns (this1, src1)
    ∧ getDynamicProperty (native_id (instance_of (lit "db") 0) (lit " ")) src1
      = VNumber 1.
Proof.
  eexists _, _. split; [reflexivity|]. split; [reflexivity|].
  vm_compute. reflexivity.
Qed.

(** * Further properties of the stores *)

(** ** Entry ids of different keys *)

Lemma uint_digits d : forallb is_digit (lit (NilEmpty.string_of_uint d)) = true.
Proof. induction d; simpl; try done; by rewrite IHd. Qed.

Lemma decimal_digits n : forallb is_digit (decimal n) = true.
Proof. apply uint_digits. Qed.

Lemma index_split (a b x y : jsstring) :
  a ++ 95 :: x = b ++ 95 :: y →
  forallb is_digit x = true → forallb is_digit y = true →
  a = b ∧ x = y.
Proof.
  revert b. induction a as [|c a IH]; intros [|d b] E Hx Hy; simpl in E.
  - by injection E.
  - injection E as _ ->. rewrite forallb_app in Hx. simpl in Hx.
    by rewrite andb_false_r in Hx.
  - injection E as _ <-. rewrite forallb_app in Hy. simpl in Hy.
    by rewrite andb_false_r in Hy.
  - injection E as -> E. destruct (IH b E Hx Hy) as [-> ->]. done.
Qed.

Lemma data_id_inj_key this key key' i j :
  data_id this key i = data_id this key' j → key = key' ∧ i = j.
Proof.
  rewrite !data_id_eq. intros E. do 2 apply app_inv_head in E.
  destruct (index_split key key' (decimal i) (decimal j) E) as [-> Hd];
    try apply decimal_digits.
  split; [done|]. by apply decimal_inj.
Qed.

(** An entry id of [key'] is none of the ids of another key. *)
Lemma ids_of_other_key this key key' :
  key' ≠ key →
  ∀ id,
    id = native_id this key' ∨ id = string_id this key'
    ∨ id = meta_id this key' ∨ (∃ j, id = data_id this key' j) →
    id ≠ native_id this key ∧ id ≠ string_id this key
    ∧ id ≠ meta_id this key ∧ ∀ i, id ≠ data_id this key i.
Proof.
  intros Hne id Hid.
  assert (∀ (t : jsstring) (k k' : jsstring),
            _fullPrefixBase this ++ t ++ k' = _fullPrefixBase this ++ t ++ k →
            k' = k) as Hinj
    by (intros t k k' E; by do 2 apply app_inv_head in E).
  destruct Hid as [->|[->|[->|[j ->]]]];
    rewrite ?native_id_eq, ?string_id_eq, ?meta_id_eq;
    repeat split;
    try (intros i; rewrite data_id_eq);
    rewrite ?native_id_eq, ?string_id_eq, ?meta_id_eq, ?data_id_eq;
    try (intros E%app_inv_head; discriminate);
    try (intros E%Hinj; done).
  intros E. apply Hne.
  apply (data_id_inj_key this key' key j i). by rewrite !data_id_eq.
Qed.

(** ** What [set] touches *)

Lemma Set_has_add_ne key key' l :
  key' ≠ key → Set_has key' (Set_add key l) = Set_has key' l.
Proof.
  intros Hne. unfold Set_add. destruct (Set_has key l); [done|].
  unfold Set_has. apply bool_decide_ext.
  rewrite elem_of_app, list_elem_of_singleton.
  split; [intros [Hl|E]; [exact Hl|congruence]|by left].
Qed.

Lemma Set_has_delete_ne key key' l :
  key' ≠ key → Set_has key' (Set_delete key l) = Set_has key' l.
Proof.
  intros Hne. unfold Set_has, Set_delete. apply bool_decide_ext.
  rewrite list_elem_of_filter. tauto.
Qed.

Lemma read_chunks_ext this key n src src' :
  (∀ j, getDynamicProperty (data_id this key j) src'
        = getDynamicProperty (data_id this key j) src) →
  Part000.read_chunks this key n src' = Part000.read_chunks this key n src.
Proof.
  intros Hd. unfold Part000.read_chunks.
  generalize (seq 0 (Z.to_nat n)) ([] : jsstring).
  induction l as [|j l IH]; intros acc; simpl; [done|].
  fold (data_id this key j). by rewrite Hd, IH.
Qed.

Lemma _checkKeyExists_ext this key src src' :
  getDynamicProperty (native_id this key) src'
  = getDynamicProperty (native_id this key) src →
  getDynamicProperty (string_id this key) src'
  = getDynamicProperty (string_id this key) src →
  getDynamicProperty (meta_id this key) src'
  = getDynamicProperty (meta_id this key) src →
  Part000._checkKeyExists this key src' = Part000._checkKeyExists this key src.
Proof.
  intros Hn Hs Hm. unfold Part000._checkKeyExists. simpl.
  fold (native_id this key) (string_id this key) (meta_id this key).
  by rewrite Hn, Hs, Hm.
Qed.

Section isolation.
Context `{JSON}.

Lemma read_value_ext this key src src' :
  getDynamicProperty (native_id this key) src'
  = getDynamicProperty (native_id this key) src →
  getDynamicProperty (string_id this key) src'
  = getDynamicProperty (string_id this key) src →
  getDynamicProperty (meta_id this key) src'
  = getDynamicProperty (meta_id this key) src →
  (∀ j, getDynamicProperty (data_id this key j) src'
        = getDynamicProperty (data_id this key j) src) →
  read_value this key src' = read_value this key src.
Proof.
  intros Hn Hs Hm Hd. unfold read_value. rewrite Hn, Hs, Hm.
  destruct (getDynamicProperty (meta_id this key) src); try done.
  by rewrite (read_chunks_ext this key _ src src').
Qed.

Lemma set_inv_undefined key v this src this1 src1 :
  is_undefined v = true →
  Part000.set key v this src = Returns (this1, src1) →
  blank key = false
  ∧ this1 = with_knownKeys (Set_delete key)
              (with_dataCache (Map_delete key) this)
  ∧ src1 = Part000._deleteKeyChunks this key src.
Proof.
  intros Hv. unfold Part000.set. destruct (blank key); [discriminate|].
  rewrite Hv. by intros [= <- <-].
Qed.

Lemma encode_into_other this key v src id :
  id ≠ native_id this key → id ≠ string_id this key →
  id ≠ meta_id this key → (∀ i, id ≠ data_id this key i) →
  properties (encode_into this key v src) !! id = properties src !! id.
Proof.
  intros Hn Hs Hm Hd. unfold encode_into.
  destruct (payload v) as [| | | |s| |];
    try (by apply properties_set_ne).
  destruct (MAX_CHUNK_SIZE <? N.of_nat (length s)).
  - rewrite write_chunks_other by (intros; apply Hd).
    by apply properties_set_ne.
  - by apply properties_set_ne.
Qed.

(** [set] leaves every entry that is not an entry of its key. *)
Lemma set_frame key v this src this1 src1 id :
  Part000.set key v this src = Returns (this1, src1) →
  id ≠ native_id this key → id ≠ string_id this key →
  id ≠ meta_id this key → (∀ i, id ≠ data_id this key i) →
  properties src1 !! id = properties src !! id.
Proof.
  intros Hset Hn Hs Hm Hd. destruct (is_undefined v) eqn:Hv.
  - destruct (set_inv_undefined _ _ _ _ _ _ Hv Hset) as (_ & _ & ->).
    by apply _deleteKeyChunks_other.
  - destruct (set_inv _ _ _ _ _ _ Hv Hset) as (_ & _ & ->).
    rewrite encode_into_other by done. by apply _deleteKeyChunks_other.
Qed.

Lemma set_instance key v this src this1 src1 :
  Part000.set key v this src = Returns (this1, src1) →
  _fullPrefixBase this1 = _fullPrefixBase this
  ∧ _autoCache this1 = _autoCache this
  ∧ _databaseId this1 = _databaseId this
  ∧ _storageSource this1 = _storageSource this
  ∧ ∀ key', key' ≠ key →
      _dataCache this1 !! key' = _dataCache this !! key'
      ∧ Set_has key' (_knownKeys this1) = Set_has key' (_knownKeys this).
Proof.
  intros Hset. destruct (is_undefined v) eqn:Hv.
  - destruct (set_inv_undefined _ _ _ _ _ _ Hv Hset) as (_ & -> & _).
    split_and!; try done. intros key' Hne. simpl. split.
    + by apply lookup_delete_ne.
    + by apply Set_has_delete_ne.
  - destruct (set_inv _ _ _ _ _ _ Hv Hset) as (_ & -> & _).
    unfold index_and_cache. simpl.
    destruct (_autoCache this) eqn:Ha; simpl; split_and!; try done;
      intros key' Hne; split; try (by apply Set_has_add_ne).
    + unfold Map_set, Map_delete.
      by rewrite lookup_insert_ne, lookup_delete_ne.
    + by apply lookup_delete_ne.
Qed.

Lemma get_returned key this src :
  returned (Part000.get key this src)
  = if blank key then Throws (lit "Key must be a non-empty string")
    else if Map_has key (_dataCache this)
    then Returns (Map_get key (_dataCache this))
    else if negb (Set_has key (_knownKeys this))
            && negb (Part000._checkKeyExists this key src)
    then Returns VUndefined
    else Returns (read_value this key src).
Proof.
  rewrite get_eq. destruct (blank key); [done|].
  destruct (Map_has key (_dataCache this)); [done|].
  by destruct (negb (Set_has key (_knownKeys this))
               && negb (Part000._checkKeyExists this key src)).
Qed.

(** X1.  [set(key, v)], for any [v], changes nothing another key reads: [has]
    and [get] of every other key answer as before. *)
Theorem set_other_key key key' v this src this1 src1 :
  key' ≠ key →
  Part000.set key v this src = Returns (this1, src1) →
  Part000.has key' this1 src1 = Part000.has key' this src
  ∧ returned (Part000.get key' this1 src1)
    = returned (Part000.get key' this src).
Proof.
  intros Hne Hset.
  destruct (set_instance _ _ _ _ _ _ Hset) as (Hpre & _ & _ & _ & Hother).
  destruct (Hother key' Hne) as [Hcache Hkeys].
  assert (∀ id,
            id = native_id this key' ∨ id = string_id this key'
            ∨ id = meta_id this key' ∨ (∃ j, id = data_id this key' j) →
            getDynamicProperty id src1 = getDynamicProperty id src) as Hsame.
  { intros id Hid.
    destruct (ids_of_other_key this key key' Hne id Hid) as (?&?&?&?).
    unfold getDynamicProperty. by rewrite (set_frame _ _ _ _ _ _ id Hset). }
  assert (Part000._checkKeyExists this1 key' src1
          = Part000._checkKeyExists this key' src) as Hex.
  { rewrite (_checkKeyExists_prefix this this1) by done.
    apply _checkKeyExists_ext; apply Hsame; eauto. }
  assert (read_value this1 key' src1 = read_value this key' src) as Hread.
  { rewrite (read_value_prefix this this1) by done.
    apply read_value_ext; try (apply Hsame; eauto).
    intros j. apply Hsame. eauto 6. }
  split.
  - unfold Part000.has, Map_has. by rewrite Hcache, Hkeys, Hex.
  - rewrite !get_returned. unfold Map_has, Map_get.
    by rewrite Hcache, Hkeys, Hex, Hread.
Qed.

End isolation.

Lemma set_other_key_witness :
  ∃ this1 src1 this2 src2,
    @Part000.set scalar_JSON (lit "a") (VNumber 1) (instance_of (lit "db") 0)
      empty_source
    = Returns (this1, src1)
    ∧ @Part000.set scalar_JSON (lit "a_0") (VString blob) this1 src1
      = Returns (this2, src2)
    ∧ returned (@Part000.get scalar_JSON (lit "a") this2 src2)
      = returned (@Part000.get scalar_JSON (lit "a") this1 src1).
Proof.
  eexists _, _, _, _. split; [reflexivity|]. split; [reflexivity|].
  apply (@set_other_key scalar_JSON (lit "a_0") (lit "a") (VString blob)).
  - discriminate.
  - reflexivity.
Defined.

(** ** The writes of [set] *)

Section set_effects.
Context `{JSON}.

Lemma encode_into_writes this key v src :
  writes (encode_into this key v src)
  = writes src ++ encoding_writes this key v.
Proof.
  unfold encode_into, encoding_writes.
  destruct (payload v) as [| | | |s| |]; try done.
  destruct (MAX_CHUNK_SIZE <? N.of_nat (length s)); [|done].
  rewrite write_chunks_writes. simpl. by rewrite <- app_assoc.
Qed.

Lemma set_log key v this src this1 src1 :
  Part000.set key v this src = Returns (this1, src1) →
  new_writes src src1
  = [(native_id this key, VUndefined); (string_id this key, VUndefined);
     (meta_id this key, VUndefined)]
    ++ if is_undefined v then [] else encoding_writes this key v.
Proof.
  intros Hset. unfold new_writes. destruct (is_undefined v) eqn:Hv.
  - destruct (set_inv_undefined _ _ _ _ _ _ Hv Hset) as (_ & _ & ->).
    rewrite _deleteKeyChunks_writes, drop_app_length. by rewrite app_nil_r.
  - destruct (set_inv _ _ _ _ _ _ Hv Hset) as (_ & _ & ->).
    rewrite encode_into_writes, _deleteKeyChunks_writes, <- app_assoc.
    by rewrite drop_app_length.
Qed.

(** X2.  [set] writes three erasures (NATIVE, STRING, META_CHUNK, in this
    order) and then its encoding: one entry for a value that fits, the count
    and [ceil(length / 32767)] chunks for a longer text; nothing more for
    [undefined]. *)
Theorem set_write_count key v this src this1 src1 :
  Part000.set key v this src = Returns (this1, src1) →
  take 3 (new_writes src src1)
  = [(native_id this key, VUndefined); (string_id this key, VUndefined);
     (meta_id this key, VUndefined)]
  ∧ length (new_writes src src1)
    = if is_undefined v then 3%nat
      else
        match payload v with
        | VString s =>
            if MAX_CHUNK_SIZE <? N.of_nat (length s)
            then (4 + N.to_nat (Part001.ceil_div (N.of_nat (length s))
                                  MAX_CHUNK_SIZE))%nat
            else 4%nat
        | _ => 4%nat
        end.
Proof.
  intros Hset. rewrite (set_log _ _ _ _ _ _ Hset). split; [done|].
  rewrite length_app. destruct (is_undefined v); [done|].
  unfold encoding_writes.
  destruct (payload v) as [| | | |s| |]; try done.
  destruct (MAX_CHUNK_SIZE <? N.of_nat (length s)); [|done].
  simpl. by rewrite length_imap, _splitIntoChunks_count.
Qed.

Lemma payload_of_string s : payload (VString s) = VString s.
Proof. done. Qed.

(** X3.  No text that [set] writes is longer than [MAX_CHUNK_SIZE]. *)
Theorem set_entries_fit key v this src this1 src1 id s :
  Part000.set key v this src = Returns (this1, src1) →
  (id, VString s) ∈ new_writes src src1 →
  N.of_nat (length s) ≤ MAX_CHUNK_SIZE.
Proof.
  intros Hset. rewrite (set_log _ _ _ _ _ _ Hset).
  rewrite elem_of_app. intros [Hin|Hin].
  - repeat (apply elem_of_cons in Hin as [Hin|Hin]; [discriminate|]).
    by apply elem_of_nil in Hin.
  - destruct (is_undefined v) eqn:Hv; [by apply elem_of_nil in Hin|].
    unfold encoding_writes in Hin.
    destruct (payload v) as [| | | |p| |] eqn:Hp;
      try (apply list_elem_of_singleton in Hin; injection Hin as _ <-;
           rewrite payload_of_string in Hp; discriminate).
    destruct (N.ltb_spec MAX_CHUNK_SIZE (N.of_nat (length p))) as [Hlt|Hle].
    + apply elem_of_cons in Hin as [Hin|Hin]; [discriminate|].
      apply elem_of_lookup_imap in Hin as (j & ch & [= _ ->] & Hj).
      rewrite _splitIntoChunks_pieces in Hj.
      pose proof (pieces_sizes _ _ _ _ _ MAX_CHUNK_SIZE_pos
                    (_splitIntoChunks_covers p) Hj) as [Hsize _].
      lia.
    + apply list_elem_of_singleton in Hin. by injection Hin as _ ->.
Qed.

(** X4.  After [set] of a value other than [undefined], the key has exactly one
    of the three encodings: NATIVE for a number, a boolean or a vector,
    STRING for a text that fits (a string, or the JSON text of an object),
    and META_CHUNK with the chunk count for a longer one. *)
Theorem set_one_encoding key v this src this1 src1 :
  is_undefined v = false →
  Part000.set key v this src = Returns (this1, src1) →
  match payload v with
  | VString s =>
      getDynamicProperty (native_id this key) src1 = VUndefined
      ∧ if MAX_CHUNK_SIZE <? N.of_nat (length s) then
          getDynamicProperty (string_id this key) src1 = VUndefined
          ∧ getDynamicProperty (meta_id this key) src1
            = VNumber
                (Z.of_N (Part001.ceil_div (N.of_nat (length s)) MAX_CHUNK_SIZE))
        else
          getDynamicProperty (string_id this key) src1 = VString s
          ∧ getDynamicProperty (meta_id this key) src1 = VUndefined
  | _ =>
      getDynamicProperty (native_id this key) src1 = v
      ∧ getDynamicProperty (string_id this key) src1 = VUndefined
      ∧ getDynamicProperty (meta_id this key) src1 = VUndefined
  end.
Proof.
  intros Hv Hset.
  destruct (set_inv _ _ _ _ _ _ Hv Hset) as (_ & _ & ->).
  pose proof (encode_into_entries this key v src Hv) as Hent. simpl in Hent.
  destruct (_deleteKeyChunks_erases this key src) as (Hn & Hs & Hm).
  destruct (ids_distinct this key 0) as (Hns & Hnm & Hsm & _).
  assert (∀ w, payload v = w → is_string w = false →
            encode_into this key v (Part000._deleteKeyChunks this key src)
            = setDynamicProperty (native_id this key) v
                (Part000._deleteKeyChunks this key src)) as Hnat.
  { intros w Hw Hstr. unfold encode_into. rewrite Hw. by destruct w. }
  destruct (payload v) as [| | | |s| |] eqn:Hp;
    try (rewrite (Hnat _ eq_refl eq_refl);
         rewrite getDynamicProperty_set_eq,
           !getDynamicProperty_set_ne by done; done).
  destruct Hent as [Hnative Hent]. split; [done|].
  destruct (MAX_CHUNK_SIZE <? N.of_nat (length s)) eqn:Hlen.
  - destruct Hent as (Hstr & Hmeta & _). split; [done|].
    by rewrite Hmeta, _splitIntoChunks_count, N_nat_Z.
  - split; [done|].
    unfold encode_into. rewrite Hp, Hlen.
    by rewrite getDynamicProperty_set_ne.
Qed.

End set_effects.

Lemma set_write_count_witness :
  ∃ this1 src1,
    @Part000.set scalar_JSON (lit "blob") (VString blob)
      (instance_of (lit "db") 0) empty_source
    = Returns (this1, src1)
    ∧ length (new_writes empty_source src1) = 7%nat.
Proof.
  destruct (@set_returns scalar_JSON (lit "blob") (VString blob)
              (instance_of (lit "db") 0) empty_source eq_refl)
    as (this1 & src1 & Hset).
  exists this1, src1. split; [exact Hset|].
  rewrite (proj2 (set_write_count _ _ _ _ _ _ Hset)).
  cbn [is_undefined]. rewrite payload_of_string, blob_length, N2Nat.id.
  reflexivity.
Defined.

Lemma set_entries_fit_witness :
  N.of_nat (length (lit "hello")) ≤ MAX_CHUNK_SIZE.
Proof.
  eapply (@set_entries_fit scalar_JSON (lit "k") (VString (lit "hello"))
            (instance_of (lit "db") 0) empty_source _ _
            (string_id (instance_of (lit "db") 0) (lit "k"))).
  - reflexivity.
  - apply list_elem_of_lookup. exists 3%nat. reflexivity.
Defined.

Lemma set_one_encoding_witness :
  ∃ this1 src1,
    @Part000.set scalar_JSON (lit "o") (VObject [(lit "a", VNumber 1)])
      (instance_of (lit "db") 0) empty_source
    = Returns (this1, src1)
    ∧ getDynamicProperty (native_id (instance_of (lit "db") 0) (lit "o")) src1
      = VUndefined
    ∧ getDynamicProperty (string_id (instance_of (lit "db") 0) (lit "o")) src1
      = VString (lit "{" ++ [34] ++ lit "a" ++ [34] ++ lit ":1}")
    ∧ getDynamicProperty (meta_id (instance_of (lit "db") 0) (lit "o")) src1
      = VUndefined.
Proof.
  eexists _, _. split; [reflexivity|].
  exact (@set_one_encoding scalar_JSON (lit "o")
           (VObject [(lit "a", VNumber 1)]) (instance_of (lit "db") 0)
           empty_source _ _ eq_refl eq_refl).
Defined.

(** ** Removing a key *)

Lemma has_false key this src :
  Part000.has key this src = false →
  _dataCache this !! key = None
  ∧ Set_has key (_knownKeys this) = false
  ∧ Part000._checkKeyExists this key src = false.
Proof.
  unfold Part000.has, Map_has.
  intros [[Hc Hk]%orb_false_iff He]%orb_false_iff. split; [|done].
  apply bool_decide_eq_false in Hc.
  destruct (_dataCache this !! key); [|done]. destruct Hc. eauto.
Qed.

Lemma has_after_erase key this this1 src :
  _fullPrefixBase this1 = _fullPrefixBase this →
  _dataCache this1 !! key = None →
  Set_has key (_knownKeys this1) = false →
  Part000.has key this1 (Part000._deleteKeyChunks this key src) = false.
Proof.
  intros Hpre Hc Hk. unfold Part000.has, Map_has. rewrite Hc, Hk.
  rewrite bool_decide_eq_false_2 by (by intros [? ?]). simpl.
  rewrite (_checkKeyExists_prefix this this1) by done.
  unfold Part000._checkKeyExists. simpl.
  destruct (_deleteKeyChunks_erases this key src) as (Hn & Hs & Hm).
  unfold native_id, string_id, meta_id in *. by rewrite Hn, Hs, Hm.
Qed.

Section removal.
Context `{JSON}.

Lemma get_unknown key this src :
  blank key = false →
  Part000.has key this src = false →
  Part000.get key this src = Returns (VUndefined, this).
Proof.
  intros Hk (Hc & Hi & He)%has_false. rewrite get_eq, Hk.
  unfold Map_has. rewrite Hc, Hi, He.
  by rewrite bool_decide_eq_false_2 by (by intros [? ?]).
Qed.

(** X5.  A key that [has] reports absent reads as [undefined], and [get]
    leaves the instance as it was (nothing is cached for it). *)
Theorem get_absent key this src :
  blank key = false →
  Part000.has key this src = false →
  Part000.get key this src = Returns (VUndefined, this).
Proof.
  intros Hk Hhas. apply has_false in Hhas as (Hc & Hi & He).
  unfold Part000.get. rewrite Hk. unfold Map_has. rewrite Hc, Hi, He.
  by rewrite bool_decide_eq_false_2 by (by intros [? ?]).
Qed.

(** X6.  [deleteValue(key)] (that is [set(key, undefined)]) erases the NATIVE,
    STRING and META_CHUNK entries of the key and takes it out of the cache
    and of the index: [has] is false and [get] returns [undefined]. *)
Theorem deleteValue_removes key this src this1 src1 :
  Part000.deleteValue key this src = Returns (this1, src1) →
  getDynamicProperty (native_id this key) src1 = VUndefined
  ∧ getDynamicProperty (string_id this key) src1 = VUndefined
  ∧ getDynamicProperty (meta_id this key) src1 = VUndefined
  ∧ (key ∉ Part000.keys this1)
  ∧ Part000.has key this1 src1 = false
  ∧ Part000.get key this1 src1 = Returns (VUndefined, this1).
Proof.
  unfold Part000.deleteValue. intros Hset.
  assert (is_undefined VUndefined = true) as Hv by done.
  destruct (set_inv_undefined _ _ _ _ _ _ Hv Hset) as (Hk & -> & ->).
  destruct (_deleteKeyChunks_erases this key src) as (Hn & Hs & Hm).
  assert (Part000.has key
            (with_knownKeys (Set_delete key)
               (with_dataCache (Map_delete key) this))
            (Part000._deleteKeyChunks this key src) = false) as Hhas.
  { apply has_after_erase; [done|apply lookup_delete_eq|].
    apply Set_has_delete. }
  split_and!; try done.
  - pose proof (Set_has_delete key (_knownKeys this)) as Hd.
    by apply bool_decide_eq_false in Hd.
  - by apply get_unknown.
Qed.

(** X7.  [delete] reports whether the key was there: [true] right after a [set]
    of a value other than [undefined], and [false] when it is called again
    right after a [delete]. *)
Theorem delete_reports key this src :
  (∀ v this1 src1,
     is_undefined v = false →
     Part000.set key v this src = Returns (this1, src1) →
     ∃ this2 src2,
       Part000.delete key this1 src1 = Returns (true, this2, src2))
  ∧ (∀ existed this1 src1,
       Part000.delete key this src = Returns (existed, this1, src1) →
       ∃ this2 src2,
         Part000.delete key this1 src1 = Returns (false, this2, src2)).
Proof.
  split.
  - intros v this1 src1 Hv Hset.
    destruct (set_inv _ _ _ _ _ _ Hv Hset) as (Hk & -> & ->).
    destruct (index_and_cache_fields key v this) as (_ & _ & Hin & _).
    unfold Part000.delete, Part000.has. rewrite Hk, Hin.
    rewrite orb_true_r. simpl. eauto.
  - intros existed this1 src1 Hdel.
    destruct (has_after_delete _ _ _ _ _ _ Hdel) as (Hhas & _ & _).
    unfold Part000.delete in *. destruct (blank key); [discriminate|].
    rewrite Hhas. eauto.
Qed.

(** X8.  [get] twice is [get] once: the second call returns the value of the
    first and leaves the instance as the first left it. *)
Theorem get_twice key this src v this1 :
  Part000.get key this src = Returns (v, this1) →
  Part000.get key this1 src = Returns (v, this1).
Proof.
  rewrite get_eq. destruct (blank key) eqn:Hk; [discriminate|].
  destruct (Map_has key (_dataCache this)) eqn:Hc.
  - intros [= <- <-]. by rewrite get_eq, Hk, Hc.
  - destruct (negb (Set_has key (_knownKeys this))
              && negb (Part000._checkKeyExists this key src)) eqn:Hex.
    + intros [= <- <-]. by rewrite get_eq, Hk, Hc, Hex.
    + unfold Part000._cacheValue. destruct (_autoCache this) eqn:Ha.
      * intros [= <- <-]. apply get_cached; [done|].
        simpl. apply lookup_insert_eq.
      * intros [= <- <-]. rewrite get_eq, Hk, Hc, Hex.
        unfold Part000._cacheValue. by rewrite Ha.
Qed.

End removal.

Lemma get_absent_witness :
  @Part000.get scalar_JSON (lit "nothing") (instance_of (lit "db") 0)
    empty_source
  = Returns (VUndefined, instance_of (lit "db") 0).
Proof.
  apply (@get_absent scalar_JSON); reflexivity.
Defined.

Lemma deleteValue_removes_witness :
  ∃ this1 src1 this2 src2,
    @Part000.set scalar_JSON (lit "k") (VNumber 1) (instance_of (lit "db") 0)
      empty_source
    = Returns (this1, src1)
    ∧ @Part000.deleteValue scalar_JSON (lit "k") this1 src1
      = Returns (this2, src2)
    ∧ Part000.has (lit "k") this2 src2 = false.
Proof.
  eexists _, _, _, _. split; [reflexivity|]. split; [reflexivity|].
  eapply (@deleteValue_removes scalar_JSON). reflexivity.
Defined.

Lemma delete_reports_witness :
  ∃ this1 src1 this2 src2,
    @Part000.set scalar_JSON (lit "k") (VNumber 1) (instance_of (lit "db") 0)
      empty_source
    = Returns (this1, src1)
    ∧ Part000.delete (lit "k") this1 src1 = Returns (true, this2, src2).
Proof.
  eexists _, _.
  destruct (proj1 (@delete_reports scalar_JSON (lit "k")
                     (instance_of (lit "db") 0) empty_source)
              (VNumber 1) _ _ eq_refl eq_refl) as (this2 & src2 & Hdel).
  exists this2, src2. split; [reflexivity|exact Hdel].
Defined.

Lemma get_twice_witness :
  ∃ this1 src1 v this2,
    @Part000.set scalar_JSON (lit "k") (VString (lit "42"))
      (Part000.unload (lit "k") (instance_of (lit "db") 0)) empty_source
    = Returns (this1, src1)
    ∧ @Part000.get scalar_JSON (lit "k") (Part000.unload (lit "k") this1) src1
      = Returns (v, this2)
    ∧ @Part000.get scalar_JSON (lit "k") this2 src1 = Returns (v, this2).
Proof.
  eexists _, _, _, _. split; [reflexivity|].
  assert (∀ A B (P Q : A → B → Prop),
            (∀ a b, P a b → Q a b) → ∀ a b, P a b → P a b ∧ Q a b)
    as Hboth by auto.
  apply (Hboth _ _ _ _ (@get_twice scalar_JSON (lit "k") _ _)).
  reflexivity.
Defined.

(** ** What the methods keep *)

Lemma scan_fields (l : list jsstring) this :
  _fullPrefixBase (foldl scan_step this l) = _fullPrefixBase this
  ∧ _dataCache (foldl scan_step this l) = _dataCache this
  ∧ _autoCache (foldl scan_step this l) = _autoCache this
  ∧ _databaseId (foldl scan_step this l) = _databaseId this
  ∧ _storageSource (foldl scan_step this l) = _storageSource this.
Proof.
  revert this. induction l as [|prop l IH]; intros this; [done|].
  simpl. destruct (IH (scan_step this prop)) as (-> & -> & -> & -> & ->).
  unfold scan_step. by destruct keyRegex_match.
Qed.

Lemma _initializeFromProperties_fields this src :
  _fullPrefixBase (Part000._initializeFromProperties this src)
  = _fullPrefixBase this
  ∧ _dataCache (Part000._initializeFromProperties this src) = _dataCache this
  ∧ _autoCache (Part000._initializeFromProperties this src) = _autoCache this
  ∧ _databaseId (Part000._initializeFromProperties this src)
    = _databaseId this
  ∧ _storageSource (Part000._initializeFromProperties this src)
    = _storageSource this.
Proof. apply scan_fields. Qed.

Section kept.
Context `{JSON}.

Lemma get_same_index key this src v this1 :
  Part000.get key this src = Returns (v, this1) → same_index this this1.
Proof.
  rewrite get_eq. unfold Part000._cacheValue, same_index.
  destruct (blank key); [discriminate|].
  destruct (Map_has key (_dataCache this)); [by intros [= <- <-]|].
  destruct (negb (Set_has key (_knownKeys this))
            && negb (Part000._checkKeyExists this key src));
    [by intros [= <- <-]|].
  destruct (_autoCache this) eqn:Ha; by intros [= <- <-].
Qed.

Lemma values_from_same_index ks this src :
  same_index this (Part000.values_from ks this src).2.
Proof.
  revert this. induction ks as [|key ks IH]; intros this; [done|].
  simpl. destruct (Part000.get key this src) as [[v this1]|e] eqn:Hget;
    [|done].
  apply get_same_index in Hget as (E1 & E2 & E3 & E4 & E5).
  specialize (IH this1).
  unfold same_index in *.
  destruct (Part000.values_from ks this1 src) as [[vs|e] this2];
    simpl in *; destruct IH as (?&?&?&?&?); split_and!; congruence.
Qed.

Lemma entries_from_same_index ks this src :
  same_index this (Part000.entries_from ks this src).2.
Proof.
  revert this. induction ks as [|key ks IH]; intros this; [done|].
  simpl. destruct (Part000.get key this src) as [[v this1]|e] eqn:Hget;
    [|done].
  apply get_same_index in Hget as (E1 & E2 & E3 & E4 & E5).
  specialize (IH this1).
  unfold same_index in *.
  destruct (Part000.entries_from ks this1 src) as [[vs|e] this2];
    simpl in *; destruct IH as (?&?&?&?&?); split_and!; congruence.
Qed.

Lemma delete_as_set key this src existed this1 src1 :
  Part000.delete key this src = Returns (existed, this1, src1) →
  Part000.set key VUndefined this src = Returns (this1, src1).
Proof.
  unfold Part000.delete, Part000.set. destruct (blank key); [discriminate|].
  by intros [= _ <- <-].
Qed.

Lemma set_checkKeyExists_other key key' v this src this1 src1 :
  key' ≠ key →
  Part000.set key v this src = Returns (this1, src1) →
  Part000._checkKeyExists this1 key' src1
  = Part000._checkKeyExists this key' src.
Proof.
  intros Hne Hset.
  destruct (set_instance _ _ _ _ _ _ Hset) as (Hpre & _).
  rewrite (_checkKeyExists_prefix this this1) by done.
  apply _checkKeyExists_ext; unfold getDynamicProperty;
    rewrite (set_frame _ _ _ _ _ _ _ Hset); try done;
    apply (ids_of_other_key this key key' Hne); eauto.
Qed.

Lemma set_index_consistent key v this src this1 src1 :
  Part000.set key v this src = Returns (this1, src1) →
  index_consistent this src → index_consistent this1 src1.
Proof.
  intros Hset Hok key'. destruct (decide (key' = key)) as [->|Hne].
  - destruct (is_undefined v) eqn:Hv.
    + destruct (set_inv_undefined _ _ _ _ _ _ Hv Hset) as (_ & -> & ->).
      simpl. rewrite Set_has_delete. symmetry.
      pose proof (has_after_erase key this
                    (with_knownKeys (Set_delete key)
                       (with_dataCache (Map_delete key) this)) src
                    eq_refl (lookup_delete_eq _ _)
                    (Set_has_delete key _)) as Hhas.
      by apply has_false in Hhas as (_ & _ & Hex).
    + destruct (set_inv _ _ _ _ _ _ Hv Hset) as (_ & -> & ->).
      destruct (index_and_cache_fields key v this) as (Hpre & _ & -> & _).
      symmetry. by apply exists_after_write.
  - destruct (set_instance _ _ _ _ _ _ Hset) as (_ & _ & _ & _ & Hother).
    destruct (Hother key' Hne) as [_ ->].
    rewrite (set_checkKeyExists_other _ _ _ _ _ _ _ Hne Hset). apply Hok.
Qed.

Lemma same_index_consistent this this1 src :
  same_index this this1 →
  index_consistent this src → index_consistent this1 src.
Proof.
  intros (Hpre & _ & _ & _ & Hkeys) Hok key. rewrite Hkeys.
  rewrite (_checkKeyExists_prefix this this1) by done. apply Hok.
Qed.

Lemma clear_index_consistent this src :
  index_consistent (Part000.clear this src).1 (Part000.clear this src).2.
Proof.
  intros key. change (_knownKeys (Part000.clear this src).1) with ([] : list jsstring).
  rewrite (_checkKeyExists_prefix this (Part000.clear this src).1) by done.
  unfold Part000._checkKeyExists. simpl existsb.
  fold (native_id this key) (string_id this key) (meta_id this key).
  assert (∀ id, startsWith id (_fullPrefixBase this) = true →
            getDynamicProperty id (Part000.clear this src).2 = VUndefined)
    as Hgone.
  { intros id Hid. unfold getDynamicProperty.
    by rewrite clear_lookup, Hid. }
  rewrite !Hgone; [done| | |]; apply startsWith_true;
    rewrite ?native_id_eq, ?string_id_eq, ?meta_id_eq; eauto.
Qed.

(** X9.  The methods keep the index in step with the host object: when the
    indexed keys are exactly those with a NATIVE, STRING or META_CHUNK entry,
    they still are after any sequence of calls on the instance. *)
Theorem index_invariant (ms : list method) this src :
  index_consistent this src →
  index_consistent
    (foldl (λ st m, invoke m st.1 st.2) (this, src) ms).1
    (foldl (λ st m, invoke m st.1 st.2) (this, src) ms).2.
Proof.
  revert this src. induction ms as [|m ms IH]; intros this src Hok; [done|].
  cbn [foldl fst snd].
  destruct (invoke m this src) as [this1 src1] eqn:Hm. apply IH.
  destruct m as [key v|key|key|key| | | |key|key| |]; simpl in Hm.
  - destruct (Part000.set key v this src) as [[t s]|e] eqn:Hset;
      injection Hm as <- <-; [|done].
    by eapply set_index_consistent.
  - destruct (Part000.get key this src) as [[w t]|e] eqn:Hget;
      injection Hm as <- <-; [|done].
    eapply same_index_consistent; [|done]. by eapply get_same_index.
  - destruct (Part000.delete key this src) as [[[b t] s]|e] eqn:Hdel;
      injection Hm as <- <-; [|done].
    eapply set_index_consistent; [|done]. by eapply delete_as_set.
  - destruct (Part000.deleteValue key this src) as [[t s]|e] eqn:Hset;
      injection Hm as <- <-; [|done].
    by eapply set_index_consistent.
  - pose proof (clear_index_consistent this src) as Hc.
    by rewrite Hm in Hc.
  - injection Hm as <- <-.
    eapply same_index_consistent; [|done]. apply values_from_same_index.
  - injection Hm as <- <-.
    eapply same_index_consistent; [|done]. apply entries_from_same_index.
  - unfold Part000.load in Hm.
    destruct (negb (Map_has key (_dataCache this)));
      [|by injection Hm as <- <-].
    destruct (Part000.get key this src) as [[w t]|e] eqn:Hget;
      injection Hm as <- <-; [|done].
    eapply same_index_consistent; [|done]. by eapply get_same_index.
  - injection Hm as <- <-. by eapply same_index_consistent.
  - injection Hm as <- <-. by eapply same_index_consistent.
  - injection Hm as <- <-. by eapply same_index_consistent.
Qed.

End kept.

Lemma index_invariant_witness :
  index_consistent
    (foldl (λ st m, @invoke scalar_JSON m st.1 st.2)
       (instance_of (lit "db") 0, empty_source)
       [MSet (lit "a") (VNumber 1); MSet (lit "b") (VString blob);
        MDelete (lit "a"); MGet (lit "b")]).1
    (foldl (λ st m, @invoke scalar_JSON m st.1 st.2)
       (instance_of (lit "db") 0, empty_source)
       [MSet (lit "a") (VNumber 1); MSet (lit "b") (VString blob);
        MDelete (lit "a"); MGet (lit "b")]).2.
Proof.
  apply (@index_invariant scalar_JSON). intros key. reflexivity.
Defined.

(** ** [clear] *)

Lemma filter_nil_iff {A} (f : A → bool) (l : list A) :
  (∀ x, x ∈ l → f x = false) → List.filter f l = [].
Proof.
  induction l as [|a l IH]; intros Hf; [done|]. simpl.
  rewrite (Hf a) by (apply elem_of_cons; by left).
  apply IH. intros x Hx. apply Hf. apply elem_of_cons. by right.
Qed.

Section clearing.
Context `{JSON}.

(** X10.  [clear()] empties the store: no entry under the prefix is left (the
    DATA_CHUNK entries that [delete] leaves behind included), [has] is false
    and [get] returns [undefined] for every key, the size is 0, and the scan
    of a new instance over the host object finds no key. *)
Theorem clear_empties this src :
  (∀ id,
     startsWith id (_fullPrefixBase this) = true →
     properties (Part000.clear this src).2 !! id = None)
  ∧ (∀ key,
       Part000.has key (Part000.clear this src).1 (Part000.clear this src).2
       = false)
  ∧ (∀ key,
       blank key = false →
       Part000.get key (Part000.clear this src).1 (Part000.clear this src).2
       = Returns (VUndefined, (Part000.clear this src).1))
  ∧ Part000.size (Part000.clear this src).1 = 0%nat
  ∧ Part000._initializeFromProperties (Part000.clear this src).1
      (Part000.clear this src).2
    = (Part000.clear this src).1.
Proof.
  assert (∀ id,
            startsWith id (_fullPrefixBase this) = true →
            properties (Part000.clear this src).2 !! id = None) as Hgone.
  { intros id Hid. by rewrite clear_lookup, Hid. }
  assert (∀ key,
            Part000.has key (Part000.clear this src).1
              (Part000.clear this src).2 = false) as Hhas.
  { intros key. unfold Part000.has.
    rewrite <- (clear_index_consistent this src key).
    by rewrite orb_diag. }
  split_and!; try done.
  - intros key Hk. by apply get_unknown.
  - unfold Part000._initializeFromProperties.
    rewrite filter_nil_iff; [done|].
    intros id [v Hv]%elem_of_getDynamicPropertyIds.
    destruct (startsWith id
                (_fullPrefixBase (Part000.clear this src).1)) eqn:Hid;
      [|done].
    by rewrite (Hgone id Hid) in Hv.
Qed.

End clearing.

Lemma clear_empties_witness :
  ∃ this1 src1 this2 src2,
    @Part000.set scalar_JSON (lit "k") (VString blob)
      (instance_of (lit "db") 0) empty_source
    = Returns (this1, src1)
    ∧ Part000.delete (lit "k") this1 src1 = Returns (true, this2, src2)
    ∧ properties (Part000.clear this2 src2).2
        !! data_id (instance_of (lit "db") 0) (lit "k") 0
      = None.
Proof.
  eexists _, _, _, _. split; [reflexivity|]. split; [reflexivity|].
  apply (proj1 (@clear_empties scalar_JSON _ _)). reflexivity.
Defined.

(** ** A new process over the same host object *)

Lemma take_while_all (f : N → bool) s :
  forallb f s = true → take_while f s = s.
Proof.
  induction s as [|c s IH]; simpl; [done|].
  intros [-> Hs]%andb_true_iff. by rewrite IH.
Qed.

Lemma keyRegex_match_plain this key t :
  t = KEY_TYPE_NATIVE ∨ t = KEY_TYPE_STRING ∨ t = KEY_TYPE_META_CHUNK →
  key ≠ [] →
  forallb (λ c, negb (is_line_terminator c)) key = true →
  keyRegex_match (_fullPrefixBase this) (_fullPrefixBase this ++ t ++ key)
  = Some key.
Proof.
  intros Ht Hne Hlt.
  assert (dot_plus key = Some key) as Hdot.
  { unfold dot_plus. rewrite take_while_all by done. by destruct key. }
  assert (keyRegex_here (_fullPrefixBase this)
            (_fullPrefixBase this ++ t ++ key) = Some key) as Hhere.
  { unfold keyRegex_here. rewrite strip_prefix_app.
    destruct Ht as [-> | [-> | ->]]; simpl; by rewrite Hdot. }
  destruct (_fullPrefixBase this ++ t ++ key); simpl; by rewrite Hhere.
Qed.

Lemma blank_nil : blank [] = true.
Proof. reflexivity. Qed.

Section restart.
Context `{JSON}.

(** X11.  What [set] stored survives a restart, for a database id without
    syntax characters (the pattern of the scan reads such an id as written)
    and a key without line terminators (the pattern's [.] stops at one).
    The scan of a new instance of the same database over the host object
    indexes the key, [has] is true, and [get] returns what the read path
    decodes from the entries. *)
Theorem set_survives_restart key v this src this1 src1 id source :
  is_undefined v = false →
  Part000.set key v this src = Returns (this1, src1) →
  forallb (λ c, negb (is_line_terminator c)) key = true →
  pattern_literal id = true →
  INTERNAL_DB_PREFIX ++ id ++ lit "_" = _fullPrefixBase this →
  let restarted :=
    Part000._initializeFromProperties (instance_of id source) src1 in
  key ∈ Part000.keys restarted
  ∧ Part000.has key restarted src1 = true
  ∧ Part000.get key restarted src1
    = Returns (Part000._cacheValue key (readback v) restarted).
Proof.
  intros Hv Hset Hlt _ Hid restarted.
  destruct (set_inv _ _ _ _ _ _ Hv Hset) as (Hk & -> & ->).
  assert (key ≠ []) as Hne by (intros ->; by rewrite blank_nil in Hk).
  destruct (_initializeFromProperties_fields (instance_of id source)
              (encode_into this key v (Part000._deleteKeyChunks this key src)))
    as (Hpre & Hcache & _).
  fold restarted in Hpre, Hcache.
  assert (_fullPrefixBase restarted = _fullPrefixBase this) as Hpre'
    by (rewrite Hpre; exact Hid).
  assert (_fullPrefixBase (instance_of id source) = _fullPrefixBase this)
    as Hinst by exact Hid.
  assert (Set_has key (_knownKeys restarted) = true) as Hin.
  { pose proof (encode_into_entries this key v src Hv) as Hent.
    simpl in Hent.
    assert (∃ t entry,
              (t = KEY_TYPE_NATIVE ∨ t = KEY_TYPE_STRING
               ∨ t = KEY_TYPE_META_CHUNK)
              ∧ entry = _fullPrefixBase this ++ t ++ key
              ∧ getDynamicProperty entry
                  (encode_into this key v
                     (Part000._deleteKeyChunks this key src)) ≠ VUndefined)
      as (t & entry & Ht & -> & Hdef).
    { destruct (payload v) as [| | | |s| |] eqn:Hp;
        try (exists KEY_TYPE_NATIVE, (native_id this key);
             split; [by left|]; split; [done|];
             rewrite Hent; by destruct v).
      destruct Hent as [_ Hent].
      destruct (MAX_CHUNK_SIZE <? N.of_nat (length s)).
      - destruct Hent as (_ & Hm & _).
        exists KEY_TYPE_META_CHUNK, (meta_id this key).
        split; [by right; right|]. split; [done|]. by rewrite Hm.
      - exists KEY_TYPE_STRING, (string_id this key).
        split; [by right; left|]. split; [done|]. by rewrite Hent. }
    apply (_initializeFromProperties_finds _ _
             (_fullPrefixBase this ++ t ++ key)).
    - unfold getDynamicProperty in Hdef.
      destruct (properties _ !! _); [eauto|done].
    - rewrite Hinst. apply startsWith_true. eauto.
    - rewrite Hinst. by apply keyRegex_match_plain. }
  assert (Part000._checkKeyExists restarted key
            (encode_into this key v (Part000._deleteKeyChunks this key src))
          = true) as Hex by (by apply exists_after_write).
  split_and!.
  - by apply bool_decide_eq_true in Hin.
  - unfold Part000.has. by rewrite Hin, orb_true_r.
  - rewrite get_stored; try done.
    + by rewrite read_after_write.
    + by rewrite Hcache.
Qed.

End restart.

Lemma set_survives_restart_witness :
  ∃ this1 src1,
    @Part000.set scalar_JSON (lit "pos")
      (VObject [(lit "x", VNumber 1); (lit "y", VNumber 2); (lit "z", VNumber 3)])
      (instance_of (lit "db") 0) empty_source
    = Returns (this1, src1)
    ∧ lit "pos"
      ∈ Part000.keys
          (Part000._initializeFromProperties (instance_of (lit "db") 7) src1).
Proof.
  eexists _, _. split; [reflexivity|].
  eapply (@set_survives_restart scalar_JSON (lit "pos")
            (VObject [(lit "x", VNumber 1); (lit "y", VNumber 2);
                      (lit "z", VNumber 3)])
            (instance_of (lit "db") 0) empty_source _ _ (lit "db") 7%nat);
    reflexivity.
Defined.

(** ** Iteration *)

Section iteration.
Context `{JSON}.

Lemma entries_from_values_from ks this src :
  (Part000.entries_from ks this src).2 = (Part000.values_from ks this src).2
  ∧ match (Part000.entries_from ks this src).1 with
    | Returns es =>
        (Part000.values_from ks this src).1 = Returns es.*2 ∧ es.*1 = ks
    | Throws e => (Part000.values_from ks this src).1 = Throws e
    end.
Proof.
  revert this. induction ks as [|key ks IH]; intros this; [done|].
  simpl. destruct (Part000.get key this src) as [[v this1]|e]; [|done].
  specialize (IH this1).
  destruct (Part000.entries_from ks this1 src) as [[es|e] t1];
    destruct (Part000.values_from ks this1 src) as [[vs|e'] t2];
    simpl in *; destruct IH as [-> IH]; try done.
  - destruct IH as [[= ->] Hk]. split; [done|]. split; [done|].
    f_equal. exact Hk.
  - by destruct IH.
Qed.

Lemma values_from_returns ks this src :
  Forall (λ key, blank key = false) ks →
  ∃ vs,
    (Part000.values_from ks this src).1 = Returns vs ∧ length vs = length ks.
Proof.
  intros Hks. revert this.
  induction Hks as [|key ks Hk Hks IH]; intros this; [by exists []|].
  simpl.
  assert (∃ v this1, Part000.get key this src = Returns (v, this1))
    as (v & this1 & ->).
  { rewrite get_eq, Hk.
    destruct (Map_has key (_dataCache this)); [eauto|].
    destruct (negb (Set_has key (_knownKeys this))
              && negb (Part000._checkKeyExists this key src)); eauto. }
  destruct (IH this1) as (vs & Hvs & Hlen).
  destruct (Part000.values_from ks this1 src) as [[vs'|e] t]; simpl in *;
    [|done].
  injection Hvs as ->. exists (v :: vs). simpl. by rewrite Hlen.
Qed.

(** X12.  [entries()] pairs [keys()] with [values()]: it yields the indexed keys
    in index order, each with the value [values()] yields at its place,
    throws where [values()] throws, and caches what [values()] caches.  When
    no indexed key is blank neither throws, and there are [size] values. *)
Theorem entries_pair_keys_with_values this src :
  (Part000.entries this src).2 = (Part000.values this src).2
  ∧ match (Part000.entries this src).1 with
    | Returns es =>
        (Part000.values this src).1 = Returns es.*2
        ∧ es.*1 = Part000.keys this
    | Throws e => (Part000.values this src).1 = Throws e
    end
  ∧ (Forall (λ key, blank key = false) (Part000.keys this) →
     ∃ vs,
       (Part000.values this src).1 = Returns vs
       ∧ length vs = Part000.size this).
Proof.
  unfold Part000.entries, Part000.values, Part000.size.
  destruct (entries_from_values_from (Part000.keys this) this src) as [E M].
  split; [done|]. split; [done|]. apply values_from_returns.
Qed.

End iteration.

Lemma entries_pair_keys_with_values_witness :
  ∃ this1 src1 this2 src2,
    @Part000.set scalar_JSON (lit "a") (VNumber 1) (instance_of (lit "db") 0)
      empty_source
    = Returns (this1, src1)
    ∧ @Part000.set scalar_JSON (lit "b") (VBool true) this1 src1
      = Returns (this2, src2)
    ∧ ∃ vs,
        (@Part000.values scalar_JSON this2 src2).1 = Returns vs
        ∧ length vs = Part000.size this2.
Proof.
  eexists _, _, _, _. split; [reflexivity|]. split; [reflexivity|].
  apply (proj2 (proj2 (@entries_pair_keys_with_values scalar_JSON _ _))).
  vm_compute. repeat constructor.
Defined.

(** ** The registry *)

Section registry.
Context `{JSON}.

Lemma invoke_same_id m this src :
  _fullPrefixBase (invoke m this src).1 = _fullPrefixBase this
  ∧ _databaseId (invoke m this src).1 = _databaseId this
  ∧ _storageSource (invoke m this src).1 = _storageSource this.
Proof.
  assert (∀ this1, same_index this this1 →
            _fullPrefixBase this1 = _fullPrefixBase this
            ∧ _databaseId this1 = _databaseId this
            ∧ _storageSource this1 = _storageSource this) as Hsame
    by (intros this1 (?&?&?&_); done).
  assert (∀ key v, 
            _fullPrefixBase
              (match Part000.set key v this src with
               | Returns r => r | Throws _ => (this, src) end).1
            = _fullPrefixBase this
            ∧ _databaseId
                (match Part000.set key v this src with
                 | Returns r => r | Throws _ => (this, src) end).1
              = _databaseId this
            ∧ _storageSource
                (match Part000.set key v this src with
                 | Returns r => r | Throws _ => (this, src) end).1
              = _storageSource this) as Hset.
  { intros key v.
    destruct (Part000.set key v this src) as [[t s]|e] eqn:E; [|done].
    by destruct (set_instance _ _ _ _ _ _ E) as (?&?&?&?&_). }
  destruct m as [key v|key|key|key| | | |key|key| |]; simpl.
  - apply Hset.
  - destruct (Part000.get key this src) as [[w t]|e] eqn:E; [|done].
    apply Hsame. by eapply get_same_index.
  - destruct (Part000.delete key this src) as [[[b t] s]|e] eqn:E; [|done].
    apply delete_as_set in E.
    by destruct (set_instance _ _ _ _ _ _ E) as (?&?&?&?&_).
  - unfold Part000.deleteValue. apply Hset.
  - done.
  - apply Hsame, values_from_same_index.
  - apply Hsame, entries_from_same_index.
  - unfold Part000.load. destruct (negb (Map_has key (_dataCache this)));
      [|done].
    destruct (Part000.get key this src) as [[w t]|e] eqn:E; [|done].
    apply Hsame. by eapply get_same_index.
  - done.
  - done.
  - done.
Qed.

Lemma step_registry_wf e w : registry_wf w → registry_wf (step e w).
Proof.
  intros Hwf source id a Hreg.
  destruct e as [id' source'|a' m|source' pid v]; simpl in *.
  - unfold Part000.new_Database in *.
    destruct (blank id'); [by apply Hwf|].
    destruct (DB_INSTANCES w !! source' ≫= (λ m, m !! id')) as [a'|] eqn:Hreg';
      [by apply Hwf|].
    unfold registered in Hreg. simpl in *.
    assert (∀ b, registered w source id b →
              ∃ this,
                (heap w ++
                   [Part000._initializeFromProperties
                      (instance_of id' source') (source_of w source')])
                  !! b = Some this
                ∧ _storageSource this = source ∧ _databaseId this = id
                ∧ _fullPrefixBase this = INTERNAL_DB_PREFIX ++ id ++ lit "_")
      as Hold.
    { intros b Hb. destruct (Hwf _ _ _ Hb) as (this & Hh & ?).
      exists this. split; [|done]. by apply lookup_app_l_Some. }
    destruct (decide (source' = source)) as [->|Hs].
    + rewrite lookup_insert_eq in Hreg. simpl in Hreg.
      destruct (decide (id' = id)) as [->|Hid].
      * rewrite lookup_insert_eq in Hreg. injection Hreg as <-.
        exists (Part000._initializeFromProperties
                  (instance_of id source) (source_of w source)).
        split.
        -- rewrite lookup_app_r by done. by rewrite Nat.sub_diag.
        -- destruct (_initializeFromProperties_fields
                       (instance_of id source) (source_of w source))
             as (-> & _ & _ & -> & ->). done.
      * rewrite lookup_insert_ne in Hreg by done. apply Hold.
        unfold registered.
        destruct (DB_INSTANCES w !! source) as [m|]; simpl in *; done.
    + rewrite lookup_insert_ne in Hreg by done. by apply Hold.
  - destruct (heap w !! a') as [this|] eqn:Ha'; [|by apply Hwf].
    destruct (invoke m this (source_of w (_storageSource this)))
      as [this' src'] eqn:Hm.
    simpl in *. destruct (Hwf _ _ _ Hreg) as (t & Hh & Hs & Hi & Hp).
    destruct (decide (a' = a)) as [->|Hne].
    + assert (t = this) as -> by congruence.
      exists this'. split.
      * apply list_lookup_insert_eq. by eapply lookup_lt_Some.
      * pose proof (invoke_same_id m this (source_of w (_storageSource this)))
          as (E1 & E2 & E3).
        rewrite Hm in E1, E2, E3. simpl in *. split_and!; congruence.
    + exists t. split; [|done]. by rewrite list_lookup_insert_ne.
  - by apply Hwf.
Qed.

Lemma run_registry_wf es w : registry_wf w → registry_wf (run es w).
Proof.
  revert w. induction es as [|e es IH]; intros w Hwf; [done|].
  simpl. apply IH. by apply step_registry_wf.
Qed.

(** X13.  In a process that started with no instance, whatever ran since, every
    registered address holds an instance with the id, the host object and
    the prefix of its pair; so two different (source, id) pairs never share
    an instance. *)
Theorem registry_invariant es :
  registry_wf (run es world0)
  ∧ ∀ source1 id1 source2 id2 a,
      registered (run es world0) source1 id1 a →
      registered (run es world0) source2 id2 a →
      source1 = source2 ∧ id1 = id2.
Proof.
  assert (registry_wf (run es world0)) as Hwf.
  { apply run_registry_wf. intros source id a Hreg. discriminate Hreg. }
  split; [done|]. intros source1 id1 source2 id2 a H1 H2.
  destruct (Hwf _ _ _ H1) as (t1 & Ht1 & <- & <- & _).
  destruct (Hwf _ _ _ H2) as (t2 & Ht2 & <- & <- & _).
  assert (t1 = t2) as -> by congruence. done.
Qed.

End registry.

Lemma registry_invariant_witness :
  registered
    (@run scalar_JSON [ENew (lit "a") 0; ENew (lit "b") 0] world0)
    0 (lit "b") 1
  ∧ ¬ registered
        (@run scalar_JSON [ENew (lit "a") 0; ENew (lit "b") 0] world0)
        0 (lit "a") 1.
Proof.
  split; [reflexivity|]. intros Ha.
  destruct (proj2 (@registry_invariant scalar_JSON
                     [ENew (lit "a") 0; ENew (lit "b") 0])
              0%nat (lit "a") 0%nat (lit "b") 1%nat Ha eq_refl)
    as [_ Hid].
  discriminate Hid.
Defined.

(** * Further properties of JSONStorage *)

Lemma getChunkKey_inj this i j :
  JSONStorage.getChunkKey this i = JSONStorage.getChunkKey this j → i = j.
Proof.
  unfold JSONStorage.getChunkKey. intros E%app_inv_head%app_inv_head.
  by apply decimal_inj.
Qed.

Lemma getChunkKey_not_count this i :
  JSONStorage.getChunkKey this i ≠ JSONStorage.getCountKey this.
Proof.
  unfold JSONStorage.getChunkKey, JSONStorage.getCountKey.
  intros E%app_inv_head. discriminate E.
Qed.

Lemma getChunkKey_not_idx this i :
  JSONStorage.getChunkKey this i ≠ JSONStorage.key this ++ lit ".idx".
Proof.
  unfold JSONStorage.getChunkKey. intros E%app_inv_head. discriminate E.
Qed.

Lemma getChunkKey_not_type this i :
  JSONStorage.getChunkKey this i ≠ JSONStorage.key this ++ lit ".type".
Proof.
  unfold JSONStorage.getChunkKey. intros E%app_inv_head. discriminate E.
Qed.

Lemma getChunkKey_not_key this i :
  JSONStorage.getChunkKey this i ≠ JSONStorage.key this.
Proof.
  unfold JSONStorage.getChunkKey. intros E.
  apply (f_equal length) in E. rewrite !length_app in E. simpl in E. lia.
Qed.

Lemma suffixed_not_key (k : jsstring) s : s ≠ [] → k ++ s ≠ k.
Proof.
  intros Hs E. apply (f_equal length) in E. rewrite length_app in E.
  destruct s; [done|]. simpl in E. lia.
Qed.

Lemma is_undefined_true v : is_undefined v = true ↔ v = VUndefined.
Proof. by destruct v. Qed.

Lemma is_undefined_false v : is_undefined v = false ↔ v ≠ VUndefined.
Proof. by destruct v. Qed.

Lemma save_chunks_writes this k chunks world :
  writes (JSONStorage.save_chunks this k chunks world)
  = writes world
    ++ imap (λ j ch, (JSONStorage.getChunkKey this (k + j), VString ch)) chunks.
Proof.
  revert k world. induction chunks as [|ch chunks IH]; intros k world; simpl.
  - by rewrite app_nil_r.
  - rewrite IH. simpl. rewrite <- app_assoc. simpl. rewrite Nat.add_0_r.
    do 2 f_equal. apply imap_ext. intros j x _. simpl. do 2 f_equal. lia.
Qed.

Lemma save_chunks_other this k chunks world id :
  (∀ j, (j < length chunks)%nat → id ≠ JSONStorage.getChunkKey this (k + j)) →
  getDynamicProperty id (JSONStorage.save_chunks this k chunks world)
  = getDynamicProperty id world.
Proof.
  revert k world. induction chunks as [|ch chunks IH]; intros k world Hid;
    simpl; [done|].
  rewrite IH.
  - apply getDynamicProperty_set_ne. intros E.
    apply (Hid 0%nat); [simpl; lia|]. by rewrite Nat.add_0_r.
  - intros j Hj. replace (S k + j)%nat with (k + S j)%nat by lia.
    apply Hid. simpl. lia.
Qed.

Lemma save_chunks_lookup this k chunks world j ch :
  chunks !! j = Some ch →
  getDynamicProperty (JSONStorage.getChunkKey this (k + j))
    (JSONStorage.save_chunks this k chunks world)
  = VString ch.
Proof.
  revert k j world. induction chunks as [|c chunks IH]; intros k j world Hj;
    [done|].
  destruct j as [|j]; simpl in *.
  - injection Hj as ->. rewrite Nat.add_0_r, save_chunks_other.
    + apply getDynamicProperty_set_eq.
    + intros j _ E%getChunkKey_inj. lia.
  - replace (k + S j)%nat with (S k + j)%nat by lia. by apply IH.
Qed.

Lemma erase_list_other this (l : list nat) world id :
  (∀ i, i ∈ l → id ≠ JSONStorage.getChunkKey this i) →
  getDynamicProperty id
    (foldl (λ world i,
              setDynamicProperty (JSONStorage.getChunkKey this i) VUndefined
                world) world l)
  = getDynamicProperty id world.
Proof.
  revert world. induction l as [|i l IH]; intros world Hid; simpl; [done|].
  rewrite IH.
  - apply getDynamicProperty_set_ne. intros E. by apply (Hid i); [left|].
  - intros j Hj. apply Hid. by right.
Qed.

Lemma erase_list_erased this (l : list nat) world i :
  i ∈ l →
  getDynamicProperty (JSONStorage.getChunkKey this i)
    (foldl (λ world i,
              setDynamicProperty (JSONStorage.getChunkKey this i) VUndefined
                world) world l)
  = VUndefined.
Proof.
  revert world. induction l as [|j l IH]; intros world Hi; simpl.
  - by apply elem_of_nil in Hi.
  - destruct (decide (i ∈ l)) as [Hl|Hl]; [by apply IH|].
    apply elem_of_cons in Hi as [->|Hi]; [|done].
    rewrite erase_list_other.
    + apply getDynamicProperty_set_eq.
    + intros i Hi E%getChunkKey_inj. by subst.
Qed.

Lemma erase_chunks_erased this a b world i :
  (a ≤ i < b)%nat →
  getDynamicProperty (JSONStorage.getChunkKey this i)
    (JSONStorage.erase_chunks this a b world)
  = VUndefined.
Proof.
  intros Hi. apply erase_list_erased. apply elem_of_seq. lia.
Qed.

Lemma erase_chunks_other this a b world id :
  (∀ i, (a ≤ i < b)%nat → id ≠ JSONStorage.getChunkKey this i) →
  getDynamicProperty id (JSONStorage.erase_chunks this a b world)
  = getDynamicProperty id world.
Proof.
  intros Hid. apply erase_list_other. intros i Hi%elem_of_seq.
  apply Hid. lia.
Qed.

Lemma load_chunks_present this k chunks world :
  (∀ j ch, chunks !! j = Some ch →
           getDynamicProperty (JSONStorage.getChunkKey this (k + j)) world
           = VString ch) →
  JSONStorage.load_chunks this (seq k (length chunks)) world = Some chunks.
Proof.
  revert k. induction chunks as [|c chunks IH]; intros k Hall; simpl; [done|].
  pose proof (Hall 0%nat c eq_refl) as H0. rewrite Nat.add_0_r in H0.
  rewrite H0, IH; [done|].
  intros j ch Hj. replace (S k + j)%nat with (k + S j)%nat by lia.
  by apply Hall.
Qed.

Lemma old_count_exceeds_own n :
  JSONStorage.old_count_exceeds (VNumber (Z.of_nat n)) n = false.
Proof.
  unfold JSONStorage.old_count_exceeds. simpl.
  destruct (Z.of_nat n =? 0)%Z eqn:E; simpl.
  - apply Z.ltb_ge. lia.
  - apply Z.ltb_irrefl.
Qed.

Section JSONStorage_props.
Context `{JSON}.

Lemma splitIntoChunks_concat this s :
  concat (JSONStorage.splitIntoChunks this s) = s.
Proof.
  rewrite JSONStorage_splitIntoChunks_pieces. apply pieces_cover.
  rewrite <- positive_nat_N. apply ceil_div_covers.
  apply Pos2Nat.is_pos.
Qed.

Lemma splitIntoChunks_nil this s :
  JSONStorage.splitIntoChunks this s = [] ↔ s = [].
Proof.
  split.
  - intros E. by rewrite <- (splitIntoChunks_concat this s), E.
  - intros ->. apply length_zero_iff_nil.
    rewrite JSONStorage_splitIntoChunks_pieces, pieces_length.
    unfold Part001.ceil_div. simpl length.
    change (N.of_nat 0) with 0.
    by rewrite N.Div0.mod_0_l, N.Div0.div_0_l.
Qed.

(** What [save] leaves in the host: the count, then the chunks; the test on
    [oldCount] reads the count it has just written and never holds. *)
Lemma save_eq this data world :
  is_undefined data = false →
  JSONStorage.save this data world
  = Returns
      (data,
       JSONStorage.save_chunks this 0
         (JSONStorage.splitIntoChunks this (JSON_stringify data))
         (setDynamicProperty (JSONStorage.getCountKey this)
            (VNumber
               (Z.of_nat
                  (length
                     (JSONStorage.splitIntoChunks this
                        (JSON_stringify data)))))
            world)).
Proof.
  intros Hd. unfold JSONStorage.save. rewrite Hd. cbv zeta.
  rewrite save_chunks_other, getDynamicProperty_set_eq, old_count_exceeds_own.
  - done.
  - intros j _ E. by apply eq_sym, getChunkKey_not_count in E.
Qed.

Lemma save_other this data world world' id :
  JSONStorage.save this data world = Returns (data, world') →
  id ≠ JSONStorage.getCountKey this →
  (∀ i, id ≠ JSONStorage.getChunkKey this i) →
  getDynamicProperty id world' = getDynamicProperty id world.
Proof.
  intros Hsave Hc Hk.
  assert (is_undefined data = false) as Hd.
  { unfold JSONStorage.save in Hsave. by destruct (is_undefined data). }
  rewrite save_eq in Hsave by done. injection Hsave as <-.
  rewrite save_chunks_other by (intros; apply Hk).
  by apply getDynamicProperty_set_ne.
Qed.

(** X14.  [save] of a value other than [undefined] returns the value and only
    adds entries: it writes the count and then each chunk in order, erases
    nothing, and leaves every chunk entry at or above the new count, so the
    chunks of a longer value saved before, as it was. *)
Theorem save_never_erases this data world :
  is_undefined data = false →
  let chunks := JSONStorage.splitIntoChunks this (JSON_stringify data) in
  ∃ world',
    JSONStorage.save this data world = Returns (data, world')
    ∧ writes world'
      = writes world
        ++ (JSONStorage.getCountKey this, VNumber (Z.of_nat (length chunks)))
           :: imap (λ j ch, (JSONStorage.getChunkKey this j, VString ch))
                chunks
    ∧ (∀ i, (length chunks ≤ i)%nat →
            getDynamicProperty (JSONStorage.getChunkKey this i) world'
            = getDynamicProperty (JSONStorage.getChunkKey this i) world)
    ∧ ∀ id, id ≠ JSONStorage.getCountKey this →
            (∀ i, id ≠ JSONStorage.getChunkKey this i) →
            getDynamicProperty id world' = getDynamicProperty id world.
Proof.
  intros Hd chunks. eexists. split; [by apply save_eq|]. split_and!.
  - rewrite save_chunks_writes. simpl. by rewrite <- app_assoc.
  - intros i Hi. rewrite save_chunks_other.
    + apply getDynamicProperty_set_ne. apply not_eq_sym, getChunkKey_not_count.
    + intros j Hj E%getChunkKey_inj. fold chunks in Hj. lia.
  - intros id. apply (save_other this data world). by apply save_eq.
Qed.

(** X15.  [load] after [save]: the text [save] stored is read back whole and
    parsed, whatever the host held before; the result is the empty string
    when the text is empty or does not parse, so [load] returns the saved
    value whenever [JSON.parse] rebuilds it from its serialization. *)
Theorem save_then_load this data world world' :
  JSONStorage.save this data world = Returns (data, world') →
  JSONStorage.load this world'
  = Some (if decide (JSON_stringify data = []) then VString []
          else default (VString []) (JSON_parse (JSON_stringify data)))
  ∧ (JSON_stringify data ≠ [] →
     JSON_parse (JSON_stringify data) = Some data →
     JSONStorage.load this world' = Some data).
Proof.
  intros Hsave.
  assert (is_undefined data = false) as Hd.
  { unfold JSONStorage.save in Hsave. by destruct (is_undefined data). }
  rewrite save_eq in Hsave by done. injection Hsave as <-.
  set (s := JSON_stringify data).
  set (chunks := JSONStorage.splitIntoChunks this s).
  match goal with |- ?l = _ ∧ _ =>
    assert (l = Some (if decide (s = []) then VString []
                      else default (VString []) (JSON_parse s))) as Hload
  end.
  { unfold JSONStorage.load.
    rewrite save_chunks_other, getDynamicProperty_set_eq
      by (intros j _ E; by apply eq_sym, getChunkKey_not_count in E).
    destruct (Z.of_nat (length chunks) =? 0)%Z eqn:En.
    - rewrite decide_True; [done|].
      apply (splitIntoChunks_nil this), length_zero_iff_nil.
      fold chunks. lia.
    - rewrite Nat2Z.id, load_chunks_present
        by (intros j ch Hj; by apply (save_chunks_lookup this 0)).
      assert (chunks ≠ []) as Hne.
      { intros E. rewrite E in En. done. }
      rewrite decide_False
        by (intros E; by apply (splitIntoChunks_nil this) in E).
      unfold chunks at 2. rewrite splitIntoChunks_concat.
      destruct chunks; [done|]. by destruct (JSON_parse s). }
  split; [done|]. intros Hne Hparse. rewrite Hload, decide_False by done.
  by rewrite Hparse.
Qed.

(** X16.  [clear] erases the count and every chunk below it and nothing else:
    chunk entries at or above the count stay (all of them when there is no
    count), and so does every entry that is neither the count nor a chunk;
    [load] then returns the empty string. *)
Theorem clear_erases_counted this world world' :
  JSONStorage.clear this world = Some world' →
  getDynamicProperty (JSONStorage.getCountKey this) world' = VUndefined
  ∧ (∀ c i, getDynamicProperty (JSONStorage.getCountKey this) world
            = VNumber c →
            getDynamicProperty (JSONStorage.getChunkKey this i) world'
            = if decide (Z.of_nat i < c)%Z then VUndefined
              else getDynamicProperty (JSONStorage.getChunkKey this i) world)
  ∧ (getDynamicProperty (JSONStorage.getCountKey this) world = VUndefined →
     ∀ i, getDynamicProperty (JSONStorage.getChunkKey this i) world'
          = getDynamicProperty (JSONStorage.getChunkKey this i) world)
  ∧ (∀ id, id ≠ JSONStorage.getCountKey this →
           (∀ i, id ≠ JSONStorage.getChunkKey this i) →
           getDynamicProperty id world' = getDynamicProperty id world)
  ∧ JSONStorage.load this world' = Some (VString []).
Proof.
  intros Hclear.
  assert (∃ w, world'
               = setDynamicProperty (JSONStorage.getCountKey this) VUndefined w
               ∧ (∀ id, (∀ i, id ≠ JSONStorage.getChunkKey this i) →
                        getDynamicProperty id w = getDynamicProperty id world)
               ∧ (∀ c i, getDynamicProperty (JSONStorage.getCountKey this) world
                         = VNumber c →
                         getDynamicProperty (JSONStorage.getChunkKey this i) w
                         = if decide (Z.of_nat i < c)%Z then VUndefined
                           else getDynamicProperty
                                  (JSONStorage.getChunkKey this i) world)
               ∧ (getDynamicProperty (JSONStorage.getCountKey this) world
                  = VUndefined → w = world))
    as (w & -> & Hother & Hchunk & Hnone).
  { unfold JSONStorage.clear in Hclear.
    destruct (getDynamicProperty (JSONStorage.getCountKey this) world)
      as [| | |c| | |] eqn:Hc; try done; injection Hclear as <-.
    - exists world. done.
    - eexists. split; [done|]. split; [|split].
      + intros id Hid. apply erase_chunks_other. intros; apply Hid.
      + intros c' i [= <-]. case_decide as Hi.
        * apply erase_chunks_erased. lia.
        * apply erase_chunks_other. intros j Hj E%getChunkKey_inj. lia.
      + intros Hu. discriminate Hu. }
  assert (getDynamicProperty (JSONStorage.getCountKey this)
            (setDynamicProperty (JSONStorage.getCountKey this) VUndefined w)
          = VUndefined) as Hcount by apply getDynamicProperty_set_eq.
  split_and!.
  - done.
  - intros c i Hc. rewrite getDynamicProperty_set_ne
      by apply not_eq_sym, getChunkKey_not_count.
    by apply Hchunk.
  - intros Hu i. rewrite getDynamicProperty_set_ne
      by apply not_eq_sym, getChunkKey_not_count.
    by rewrite (Hnone Hu).
  - intros id Hc Hk. rewrite getDynamicProperty_set_ne by done.
    by apply Hother.
  - unfold JSONStorage.load. by rewrite Hcount.
Qed.

(** X17.  [access] does not read what [save] stores: on a host without the
    [idx] entry, [access] after [save] still returns the plain entry under
    the key, as before the [save]. *)
Theorem access_ignores_save this data world world' :
  getDynamicProperty (JSONStorage.key this ++ lit ".idx") world = VUndefined →
  JSONStorage.save this data world = Returns (data, world') →
  JSONStorage.access this world'
  = Some (Returns (getDynamicProperty (JSONStorage.key this) world))
  ∧ JSONStorage.access this world' = JSONStorage.access this world.
Proof.
  intros Hidx Hsave.
  pose proof (λ id, save_other this data world world' id Hsave) as Hother.
  assert (getDynamicProperty (JSONStorage.key this ++ lit ".idx") world'
          = VUndefined) as Hidx'.
  { rewrite Hother; [done|..].
    - unfold JSONStorage.getCountKey. intros E%app_inv_head. discriminate E.
    - intros i. apply not_eq_sym, getChunkKey_not_idx. }
  assert (getDynamicProperty (JSONStorage.key this) world'
          = getDynamicProperty (JSONStorage.key this) world) as Hkey.
  { apply Hother.
    - apply not_eq_sym, suffixed_not_key. done.
    - intros i. apply not_eq_sym, getChunkKey_not_key. }
  unfold JSONStorage.access. by rewrite Hidx', Hidx, Hkey.
Qed.

Lemma clearChunkData_loop_run this world i n fuel :
  (∀ j, (i ≤ j < i + n)%nat →
        getDynamicProperty (JSONStorage.getChunkKey this j) world
        ≠ VUndefined) →
  getDynamicProperty (JSONStorage.getChunkKey this (i + n)) world
  = VUndefined →
  (n < fuel)%nat →
  JSONStorage.clearChunkData_loop fuel this i world
  = Some (JSONStorage.erase_chunks this i (i + n) world).
Proof.
  revert i world fuel. induction n as [|n IH]; intros i world fuel Hrun Hend Hf;
    (destruct fuel as [|fuel]; [lia|]); simpl.
  - rewrite Nat.add_0_r in Hend. rewrite Hend. simpl.
    unfold JSONStorage.erase_chunks. by rewrite Nat.add_0_r, Nat.sub_diag.
  - assert (is_undefined
              (getDynamicProperty (JSONStorage.getChunkKey this i) world)
            = false) as ->.
    { apply is_undefined_false, Hrun. lia. }
    rewrite (IH (S i)).
    + unfold JSONStorage.erase_chunks.
      replace (S i + n - S i)%nat with n by lia.
      replace (i + S n - i)%nat with (S n) by lia. done.
    + intros j Hj. rewrite getDynamicProperty_set_ne.
      * apply Hrun. lia.
      * intros E%getChunkKey_inj. lia.
    + rewrite getDynamicProperty_set_ne.
      * by replace (S i + n)%nat with (i + S n)%nat by lia.
      * intros E%getChunkKey_inj. lia.
    + lia.
Qed.

Lemma chunk_run_or_gap this world k :
  (∃ n, (n < k)%nat
        ∧ (∀ j, (j < n)%nat →
                getDynamicProperty (JSONStorage.getChunkKey this j) world
                ≠ VUndefined)
        ∧ getDynamicProperty (JSONStorage.getChunkKey this n) world
          = VUndefined)
  ∨ ∀ j, (j < k)%nat →
         getDynamicProperty (JSONStorage.getChunkKey this j) world
         ≠ VUndefined.
Proof.
  induction k as [|k [(n & Hn & Hrun & Hend)|Hall]].
  - right. intros; lia.
  - left. exists n. split; [lia|done].
  - destruct (is_undefined
                (getDynamicProperty (JSONStorage.getChunkKey this k) world))
      eqn:E.
    + left. exists k. split; [lia|]. split; [done|].
      by apply is_undefined_true.
    + right. intros j Hj. destruct (decide (j = k)) as [->|Hne].
      * by apply is_undefined_false.
      * apply Hall. lia.
Qed.

Lemma chunk_gap_exists this world :
  ∃ n, (n ≤ size (properties world))%nat
       ∧ (∀ j, (j < n)%nat →
               getDynamicProperty (JSONStorage.getChunkKey this j) world
               ≠ VUndefined)
       ∧ getDynamicProperty (JSONStorage.getChunkKey this n) world
         = VUndefined.
Proof.
  destruct (chunk_run_or_gap this world (S (size (properties world))))
    as [(n & Hn & Hrun & Hend)|Hall].
  { exists n. split; [lia|done]. }
  exfalso.
  set (l := JSONStorage.getChunkKey this
              <$> seq 0 (S (size (properties world)))).
  assert (l ⊆+ (map_to_list (properties world)).*1) as Hsub.
  { apply NoDup_submseteq.
    - apply NoDup_fmap_2; [|apply NoDup_seq].
      intros i j. apply getChunkKey_inj.
    - intros id (j & -> & Hj%elem_of_seq)%list_elem_of_fmap.
      specialize (Hall j ltac:(lia)). unfold getDynamicProperty in Hall.
      destruct (properties world !! JSONStorage.getChunkKey this j)
        as [v|] eqn:Hv; [|done].
      apply list_elem_of_fmap. exists (JSONStorage.getChunkKey this j, v).
      split; [done|]. by apply elem_of_map_to_list. }
  apply submseteq_length in Hsub.
  unfold l in Hsub.
  rewrite !length_fmap, length_seq, length_map_to_list in Hsub. lia.
Qed.

(** X18.  [clearChunkData] returns on every host state: its loop stops at the
    first chunk index with no entry, which is at most the number of entries
    of the host.  It erases the [idx] and [type] entries and the chunks
    below that index and leaves every other entry, chunks above the gap
    included; [access] then returns the plain entry under the key. *)
Theorem clearChunkData_returns this world :
  ∃ n world',
    (n ≤ size (properties world))%nat
    ∧ (∀ fuel, (n < fuel)%nat →
               JSONStorage.clearChunkData fuel this world = Some world')
    ∧ (∀ i, getDynamicProperty (JSONStorage.getChunkKey this i) world'
            = if decide (i < n)%nat then VUndefined
              else getDynamicProperty (JSONStorage.getChunkKey this i) world)
    ∧ getDynamicProperty (JSONStorage.getChunkKey this n) world = VUndefined
    ∧ getDynamicProperty (JSONStorage.key this ++ lit ".idx") world'
      = VUndefined
    ∧ getDynamicProperty (JSONStorage.key this ++ lit ".type") world'
      = VUndefined
    ∧ (∀ id, id ≠ JSONStorage.key this ++ lit ".idx" →
             id ≠ JSONStorage.key this ++ lit ".type" →
             (∀ i, id ≠ JSONStorage.getChunkKey this i) →
             getDynamicProperty id world' = getDynamicProperty id world)
    ∧ JSONStorage.access this world'
      = Some (Returns (getDynamicProperty (JSONStorage.key this) world)).
Proof.
  destruct (chunk_gap_exists this world) as (n & Hn & Hrun & Hend).
  set (w := setDynamicProperty (JSONStorage.key this ++ lit ".type") VUndefined
              (setDynamicProperty (JSONStorage.key this ++ lit ".idx")
                 VUndefined world)).
  assert (∀ i, getDynamicProperty (JSONStorage.getChunkKey this i) w
               = getDynamicProperty (JSONStorage.getChunkKey this i) world)
    as Hw.
  { intros i. unfold w. rewrite !getDynamicProperty_set_ne; [done|..].
    - apply not_eq_sym, getChunkKey_not_idx.
    - apply not_eq_sym, getChunkKey_not_type. }
  assert (getDynamicProperty (JSONStorage.key this ++ lit ".idx")
            (JSONStorage.erase_chunks this 0 n w) = VUndefined) as Hidx.
  { rewrite erase_chunks_other
      by (intros; apply not_eq_sym, getChunkKey_not_idx).
    unfold w. rewrite getDynamicProperty_set_ne.
    - apply getDynamicProperty_set_eq.
    - intros E%app_inv_head. discriminate E. }
  assert (∀ id, id ≠ JSONStorage.key this ++ lit ".idx" →
             id ≠ JSONStorage.key this ++ lit ".type" →
             (∀ i, id ≠ JSONStorage.getChunkKey this i) →
             getDynamicProperty id (JSONStorage.erase_chunks this 0 n w)
             = getDynamicProperty id world) as Hother.
  { intros id H1 H2 H3. rewrite erase_chunks_other by (intros; apply H3).
    unfold w. by rewrite !getDynamicProperty_set_ne. }
  exists n, (JSONStorage.erase_chunks this 0 n w). split_and!.
  - done.
  - intros fuel Hf. unfold JSONStorage.clearChunkData. fold w.
    apply (clearChunkData_loop_run this w 0 n fuel); [|by rewrite Hw|done].
    intros j Hj. rewrite Hw. apply Hrun. lia.
  - intros i. case_decide as Hi.
    + apply erase_chunks_erased. lia.
    + rewrite erase_chunks_other; [apply Hw|].
      intros j Hj E%getChunkKey_inj. lia.
  - done.
  - done.
  - rewrite erase_chunks_other
      by (intros; apply not_eq_sym, getChunkKey_not_type).
    apply getDynamicProperty_set_eq.
  - done.
  - unfold JSONStorage.access. rewrite Hidx, Hother; [done|..].
    + apply not_eq_sym, suffixed_not_key. done.
    + apply not_eq_sym, suffixed_not_key. done.
    + intros i. apply not_eq_sym, getChunkKey_not_key.
Qed.

End JSONStorage_props.

Lemma save_never_erases_witness :
  ∃ world1 world2,
    @JSONStorage.save scalar_JSON
      {| JSONStorage.key := lit "s"; JSONStorage.chunkSize := 2 |}
      (VNumber 12345) empty_source
    = Returns (VNumber 12345, world1)
    ∧ @JSONStorage.save scalar_JSON
        {| JSONStorage.key := lit "s"; JSONStorage.chunkSize := 2 |}
        (VNumber 7) world1
      = Returns (VNumber 7, world2)
    ∧ getDynamicProperty (lit "s.count") world2 = VNumber 1
    ∧ getDynamicProperty (lit "s:1") world2 = VString (lit "34")
    ∧ getDynamicProperty (lit "s:2") world2 = VString (lit "5").
Proof.
  eexists. 
  destruct (@save_never_erases scalar_JSON
              {| JSONStorage.key := lit "s"; JSONStorage.chunkSize := 2 |}
              (VNumber 7)
              (JSONStorage.save_chunks
                 {| JSONStorage.key := lit "s"; JSONStorage.chunkSize := 2 |}
                 0 [lit "12"; lit "34"; lit "5"]
                 (setDynamicProperty (lit "s.count") (VNumber 3)
                    empty_source))
              eq_refl)
    as (world2 & Hsave & _ & Hkeep & _).
  exists world2. split; [reflexivity|]. split; [exact Hsave|].
  split.
  - vm_compute in Hsave. injection Hsave as <-. reflexivity.
  - split.
    + etransitivity; [apply (Hkeep 1%nat); vm_compute; lia|reflexivity].
    + etransitivity; [apply (Hkeep 2%nat); vm_compute; lia|reflexivity].
Defined.

Lemma save_then_load_witness :
  ∃ world',
    @JSONStorage.save scalar_JSON
      {| JSONStorage.key := lit "s"; JSONStorage.chunkSize := 2 |}
      (VNumber 12345) empty_source
    = Returns (VNumber 12345, world')
    ∧ @JSONStorage.load scalar_JSON
        {| JSONStorage.key := lit "s"; JSONStorage.chunkSize := 2 |} world'
      = Some (VNumber 12345).
Proof.
  eexists. split; [by apply save_eq|].
  apply (proj2 (@save_then_load scalar_JSON _ _ _ _
                  (save_eq _ (VNumber 12345) _ eq_refl)));
    [done|reflexivity].
Defined.

Lemma clear_erases_counted_witness :
  ∃ world',
    JSONStorage.clear
      {| JSONStorage.key := lit "s"; JSONStorage.chunkSize := 2 |}
      (JSONStorage.save_chunks
         {| JSONStorage.key := lit "s"; JSONStorage.chunkSize := 2 |}
         0 [lit "7"; lit "34"]
         (setDynamicProperty (lit "s.count") (VNumber 1) empty_source))
    = Some world'
    ∧ getDynamicProperty (lit "s.count") world' = VUndefined
    ∧ getDynamicProperty (lit "s:0") world' = VUndefined
    ∧ getDynamicProperty (lit "s:1") world' = VString (lit "34").
Proof.
  eexists. split; [reflexivity|].
  match goal with |- getDynamicProperty _ ?w = _ ∧ _ =>
    destruct (@clear_erases_counted scalar_JSON
                {| JSONStorage.key := lit "s"; JSONStorage.chunkSize := 2 |}
                (JSONStorage.save_chunks
                   {| JSONStorage.key := lit "s";
                      JSONStorage.chunkSize := 2 |}
                   0 [lit "7"; lit "34"]
                   (setDynamicProperty (lit "s.count") (VNumber 1)
                      empty_source))
                w eq_refl)
      as (Hcount & Hchunk & _)
  end.
  split; [exact Hcount|]. split.
  - exact (Hchunk 1%Z 0%nat eq_refl).
  - exact (Hchunk 1%Z 1%nat eq_refl).
Defined.

Lemma access_ignores_save_witness :
  ∃ world',
    @JSONStorage.save scalar_JSON
      {| JSONStorage.key := lit "s"; JSONStorage.chunkSize := 2 |}
      (VNumber 7)
      (setDynamicProperty (lit "s") (VString (lit "plain")) empty_source)
    = Returns (VNumber 7, world')
    ∧ @JSONStorage.access scalar_JSON
        {| JSONStorage.key := lit "s"; JSONStorage.chunkSize := 2 |} world'
      = Some (Returns (VString (lit "plain"))).
Proof.
  eexists. split; [by apply save_eq|].
  apply (proj1 (@access_ignores_save scalar_JSON
                  {| JSONStorage.key := lit "s"; JSONStorage.chunkSize := 2 |}
                  (VNumber 7)
                  (setDynamicProperty (lit "s") (VString (lit "plain"))
                     empty_source)
                  _ eq_refl (save_eq _ (VNumber 7) _ eq_refl))).
Defined.

(** * Caching switched off *)

Lemma Map_has_delete k key m :
  Map_has k (Map_delete key m) = true → Map_has k m = true.
Proof.
  unfold Map_has, Map_delete. rewrite !bool_decide_eq_true.
  intros [v Hv]. apply lookup_delete_Some in Hv as [_ Hv]. by exists v.
Qed.

Section cache_off.
Context `{JSON}.

Lemma get_uncached key this src v this' :
  _autoCache this = false →
  Part000.get key this src = Returns (v, this') → this' = this.
Proof.
  intros Hoff. unfold Part000.get, Part000._cacheValue. rewrite Hoff.
  repeat (case_match; try done); by intros [= _ <-].
Qed.

Lemma values_from_uncached ks this src :
  _autoCache this = false → (Part000.values_from ks this src).2 = this.
Proof.
  intros Hoff. induction ks as [|key ks IH]; simpl; [done|].
  destruct (Part000.get key this src) as [[v t]|e] eqn:E; [|done].
  apply get_uncached in E as ->; [|done].
  by destruct (Part000.values_from ks this src) as [[vs|e] t'].
Qed.

Lemma entries_from_uncached ks this src :
  _autoCache this = false → (Part000.entries_from ks this src).2 = this.
Proof.
  intros Hoff. induction ks as [|key ks IH]; simpl; [done|].
  destruct (Part000.get key this src) as [[v t]|e] eqn:E; [|done].
  apply get_uncached in E as ->; [|done].
  by destruct (Part000.entries_from ks this src) as [[vs|e] t'].
Qed.

Lemma set_uncached key v this src :
  _autoCache this = false →
  let this' :=
    (match Part000.set key v this src with
     | Returns r => r | Throws _ => (this, src) end).1 in
  _autoCache this' = false
  ∧ ∀ k, Map_has k (_dataCache this') = true →
         Map_has k (_dataCache this) = true.
Proof.
  intros Hoff. unfold Part000.set.
  destruct (blank key); [done|]. destruct (is_undefined v); simpl.
  - split; [done|]. intros k. apply Map_has_delete.
  - rewrite Hoff. simpl. split; [done|]. intros k. apply Map_has_delete.
Qed.

Lemma invoke_uncached m this src :
  _autoCache this = false → m ≠ MEnableCache →
  _autoCache (invoke m this src).1 = false
  ∧ ∀ k, Map_has k (_dataCache (invoke m this src).1) = true →
         Map_has k (_dataCache this) = true.
Proof.
  intros Hoff Hm.
  destruct m as [key v|key|key|key| | | |key|key| |]; simpl.
  - by apply set_uncached.
  - destruct (Part000.get key this src) as [[w t]|e] eqn:E; [|done].
    by apply get_uncached in E as ->.
  - unfold Part000.delete. destruct (blank key); [done|]. simpl.
    split; [done|]. intros k. apply Map_has_delete.
  - by apply set_uncached.
  - split; [done|]. intros k Hk. done.
  - unfold Part000.values. by rewrite values_from_uncached.
  - unfold Part000.entries. by rewrite entries_from_uncached.
  - unfold Part000.load. destruct (negb (Map_has key (_dataCache this)));
      [|done].
    destruct (Part000.get key this src) as [[w t]|e] eqn:E; [|done].
    by apply get_uncached in E as ->.
  - split; [done|]. intros k. apply Map_has_delete.
  - done.
  - done.
Qed.

(** X19.  With caching switched off, no call other than [enableCache] switches
    it on or adds a cache entry: after any sequence of [set], [get],
    [delete], [deleteValue], [clear], [values], [entries], [load], [unload]
    and [disableCache], every cached key was cached before the sequence. *)
Theorem disabled_cache_never_fills ms this src :
  _autoCache this = false →
  MEnableCache ∉ ms →
  let st := foldl (λ st m, invoke m st.1 st.2) (this, src) ms in
  _autoCache st.1 = false
  ∧ ∀ k, Map_has k (_dataCache st.1) = true →
         Map_has k (_dataCache this) = true.
Proof.
  intros Hoff Hms. simpl. revert this src Hoff.
  induction ms as [|m ms IH]; intros this src Hoff; simpl; [done|].
  destruct (invoke_uncached m this src Hoff) as [Hoff' Hsub].
  { intros ->. apply Hms. by left. }
  destruct (invoke m this src) as [this1 src1] eqn:Hm. simpl in *.
  assert (MEnableCache ∉ ms) as Hms'.
  { intros Hin. apply Hms. by right. }
  destruct (IH Hms' this1 src1 Hoff') as [Hoff'' Hsub'].
  split; [done|]. intros k Hk. by apply Hsub, Hsub'.
Qed.

End cache_off.

Lemma disabled_cache_never_fills_witness :
  Map_has (lit "k")
    (_dataCache
       (foldl (λ st m, @invoke scalar_JSON m st.1 st.2)
          (Part000.disableCache (instance_of (lit "db") 0), empty_source)
          [MSet (lit "k") (VNumber 1); MGet (lit "k"); MValues]).1)
  = false.
Proof.
  match goal with |- ?b = false => destruct b eqn:E; [|reflexivity] end.
  apply (proj2 (@disabled_cache_never_fills scalar_JSON
                  [MSet (lit "k") (VNumber 1); MGet (lit "k"); MValues]
                  (Part000.disableCache (instance_of (lit "db") 0))
                  empty_source eq_refl
                  ltac:(intros Hin;
                        repeat (apply elem_of_cons in Hin as [Hin|Hin];
                                [discriminate Hin|]);
                        by apply elem_of_nil in Hin))) in E.
  discriminate E.
Defined.
